(** * kirillnbuv/todo: the task pipeline of [script.js]

    A shallow embedding of the sanitizer, the validator, the store and the
    importer of [src/script.js], and the properties of the specification
    stated over it.

    JavaScript strings are sequences of UTF-16 code units; a code unit is a
    number [N] and a string is a [list N].  The regular expressions of the
    source are terms of a small syntax, run by a backtracking matcher that
    follows the continuation semantics of the ECMAScript standard; the
    methods [replace], [split] and [trim] are written over it. *)

From Stdlib Require Import String Ascii DecimalString List NArith ZArith Bool
  Arith Lia.
Import ListNotations.

Local Open Scope N_scope.

(* ================================================================== *)
(** * Strings of code units *)

Definition jsstring := list N.

(** A source literal, written as a Rocq string of ASCII characters. *)
Definition js (s : string) : jsstring :=
  map N_of_ascii (list_ascii_of_string s).

Fixpoint jsstring_eqb (a b : jsstring) : bool :=
  match a, b with
  | [], [] => true
  | x :: a', y :: b' => (x =? y) && jsstring_eqb a' b'
  | _, _ => false
  end.

(** [String.prototype.startsWith]. *)
Fixpoint startsWith (s pre : jsstring) : bool :=
  match pre, s with
  | [], _ => true
  | x :: pre', y :: s' => (x =? y) && startsWith s' pre'
  | _ :: _, [] => false
  end.

(** [String.prototype.includes]. *)
Fixpoint includes (s sub : jsstring) : bool :=
  startsWith s sub ||
  match s with
  | [] => false
  | _ :: s' => includes s' sub
  end.

(** [String.prototype.endsWith]. *)
Definition endsWith (s suf : jsstring) : bool :=
  startsWith (rev s) (rev suf).

(** ** Character classes *)

Definition in_range (lo hi c : N) : bool := (lo <=? c) && (c <=? hi).

(** White space and line terminators of ECMAScript: the class [\s] of the
    regular expressions and the characters [trim] removes. *)
Definition is_space (c : N) : bool :=
  in_range 9 13 c || (c =? 32) || (c =? 160) || (c =? 5760) ||
  in_range 8192 8202 c || (c =? 8232) || (c =? 8233) || (c =? 8239) ||
  (c =? 8287) || (c =? 12288) || (c =? 65279).

(** The class [\w]: ASCII letters, digits and the underscore. *)
Definition is_word (c : N) : bool :=
  in_range 97 122 c || in_range 65 90 c || in_range 48 57 c || (c =? 95).

(** Canonicalization of the [i] flag without the [u] flag: a code unit is
    compared through its upper case, and a code unit outside ASCII is never
    mapped into ASCII, so that only the ASCII letters fold onto the letters
    of the patterns below. *)
Definition canonicalize (c : N) : N :=
  if in_range 97 122 c then c - 32 else c.

Definition eq_ci (a c : N) : bool := canonicalize c =? canonicalize a.

(** ** [String.prototype.trim] *)

Fixpoint trimStart (s : jsstring) : jsstring :=
  match s with
  | [] => []
  | c :: s' => if is_space c then trimStart s' else s
  end.

Definition trim (s : jsstring) : jsstring :=
  rev (trimStart (rev (trimStart s))).

(* ================================================================== *)
(** * Regular expressions *)

Module RegExp.

(** The syntax covers what the patterns of the source use. *)
Inductive regex : Type :=
| Chr (cls : N -> bool)       (* one code unit of a class *)
| Seq (r1 r2 : regex)         (* r1 r2 *)
| Star (r : regex)            (* r*, greedy *)
| Opt (r : regex)             (* r?, greedy *)
| NotAhead (r : regex)        (* (?!r) *)
| WordBoundary                (* \b *)
| Bol.                        (* ^ without the m flag *)

(** [r+] *)
Definition Plus (r : regex) : regex := Seq r (Star r).

(** A literal: the code unit [c], then those of [tl], each compared with
    [eqc]. *)
Fixpoint lit_seq (eqc : N -> N -> bool) (c : N) (tl : jsstring) : regex :=
  match tl with
  | [] => Chr (eqc c)
  | d :: tl' => Seq (Chr (eqc c)) (lit_seq eqc d tl')
  end.

(** A literal under the [i] flag; the empty literal matches the empty
    text. *)
Definition lit_i (s : string) : regex :=
  match js s with
  | [] => Opt (Chr (fun _ => false))
  | c :: tl => lit_seq eq_ci c tl
  end.

(** The matcher is in continuation-passing style, as the matchers of the
    standard are: [p] is the code unit before the current position ([None]
    at the start of the input), [s] is the input from the current position
    on, and the continuation [k] receives the position reached.  The answer
    is the input left after the whole match.

    An iteration of [r*] that consumes nothing is rejected, as the standard
    prescribes, so that there are at most as many iterations as the input
    has code units: the bound [star_loop] is given ([star_loop_enough]
    shows that a larger bound changes nothing). *)
Definition cont := option N -> jsstring -> option jsstring.

Definition is_word_opt (p : option N) : bool :=
  match p with
  | Some c => is_word c
  | None => false
  end.

(** The iterations of [r*], [body] being the matcher of [r]: as many as
    possible first, at most [n] of them. *)
Fixpoint star_loop (body : option N -> jsstring -> cont -> option jsstring)
    (k : cont) (n : nat) (p : option N) (s : jsstring) : option jsstring :=
  match n with
  | O => k p s
  | S n' =>
      match body p s (fun p' s' =>
              if (length s' <? length s)%nat
              then star_loop body k n' p' s' else None) with
      | Some res => Some res
      | None => k p s
      end
  end.

Fixpoint m (r : regex) (p : option N) (s : jsstring) (k : cont)
  : option jsstring :=
  match r with
  | Chr cls =>
      match s with
      | c :: s' => if cls c then k (Some c) s' else None
      | [] => None
      end
  | Seq r1 r2 => m r1 p s (fun p' s' => m r2 p' s' k)
  | Star r1 => star_loop (m r1) k (length s) p s
  | Opt r1 =>
      match m r1 p s k with
      | Some res => Some res
      | None => k p s
      end
  | NotAhead r1 =>
      match m r1 p s (fun _ s' => Some s') with
      | Some _ => None
      | None => k p s
      end
  | WordBoundary =>
      if xorb (is_word_opt p) (is_word_opt (hd_error s)) then k p s else None
  | Bol =>
      match p with
      | None => k p s
      | Some _ => None
      end
  end.

(** A match attempt at one position: the number of code units matched. *)
Definition exec (r : regex) (p : option N) (s : jsstring) : option nat :=
  match m r p s (fun _ s' => Some s') with
  | Some s' => Some (length s - length s')%nat
  | None => None
  end.

(** [s.replace(r, f)] with the [g] flag.  The scan goes through the input
    once: [skip] counts the code units of the current match that are still
    to be passed over; with [skip = 0] a match is attempted at the current
    position.  A match is replaced by [f] of the matched text; after an
    empty match the scan copies one code unit and goes on. *)
Fixpoint replace_go (r : regex) (f : jsstring -> jsstring)
    (p : option N) (skip : nat) (s : jsstring) : jsstring :=
  match skip with
  | S k =>
      match s with
      | [] => []
      | c :: t => replace_go r f (Some c) k t
      end
  | O =>
      match exec r p s with
      | Some n =>
          f (firstn n s) ++
          match s with
          | [] => []
          | c :: t =>
              match n with
              | O => c :: replace_go r f (Some c) O t
              | S n' => replace_go r f (Some c) n' t
              end
          end
      | None =>
          match s with
          | [] => []
          | c :: t => c :: replace_go r f (Some c) O t
          end
      end
  end.

Definition replace_all (r : regex) (f : jsstring -> jsstring)
    (s : jsstring) : jsstring :=
  replace_go r f None O s.

(** [s.replace(r, f)] without the [g] flag: the leftmost match only. *)
Fixpoint replace_first_go (r : regex) (f : jsstring -> jsstring)
    (p : option N) (s : jsstring) : jsstring :=
  match exec r p s with
  | Some n => f (firstn n s) ++ skipn n s
  | None =>
      match s with
      | [] => []
      | c :: t => c :: replace_first_go r f (Some c) t
      end
  end.

Definition replace_first (r : regex) (f : jsstring -> jsstring)
    (s : jsstring) : jsstring :=
  replace_first_go r f None s.

(** [s.split(r)]: [cur] is the piece since the last separator, reversed.
    No match is attempted at the end of the input, and an empty match at
    the start of a piece does not split. *)
Fixpoint split_go (r : regex) (p : option N) (skip : nat)
    (cur : jsstring) (s : jsstring) : list jsstring :=
  match s with
  | [] => [rev cur]
  | c :: t =>
      match skip with
      | S k => split_go r (Some c) k cur t
      | O =>
          match exec r p s with
          | Some (S n') => rev cur :: split_go r (Some c) n' [] t
          | Some O =>
              match cur with
              | [] => split_go r (Some c) O [c] t
              | _ :: _ => rev cur :: split_go r (Some c) O [c] t
              end
          | None => split_go r (Some c) O (c :: cur) t
          end
      end
  end.

Definition split (r : regex) (s : jsstring) : list jsstring :=
  match s with
  | [] => match exec r None [] with Some _ => [] | None => [[]] end
  | _ :: _ => split_go r None O [] s
  end.

End RegExp.

Import RegExp.

(* ================================================================== *)
(** * The sanitizer *)

(** ** The patterns of [sanitizeText], in the order of the source *)

Definition is_lt (c : N) : bool := c =? 60.      (* < *)
Definition is_gt (c : N) : bool := c =? 62.      (* > *)
Definition is_quote (c : N) : bool := (c =? 34) || (c =? 39).
    (* the double quote, written \x22 in the patterns below, and ' *)
Definition is_colon (c : N) : bool := c =? 58.   (* : *)
Definition is_equals (c : N) : bool := c =? 61.  (* = *)
Definition not_lt (c : N) : bool := negb (is_lt c).
Definition not_gt (c : N) : bool := negb (is_gt c).
Definition not_quote (c : N) : bool := negb (is_quote c).

(** [/<tag\b[^<]* (?:(?!<\/tag>)<[^<]* )* <\/tag>/gi], shown here with a
    space before each closing parenthesis and around the group; the source
    writes it out for script, style, iframe, object and embed. *)
Definition re_block (tag : string) : regex :=
  Seq (lit_i ("<" ++ tag)%string)
  (Seq WordBoundary
  (Seq (Star (Chr not_lt))
  (Seq (Star (Seq (NotAhead (lit_i ("</" ++ tag ++ ">")%string))
             (Seq (Chr is_lt) (Star (Chr not_lt)))))
       (lit_i ("</" ++ tag ++ ">")%string)))).

(** [/<tag\b[^>]*>/gi], for link and meta. *)
Definition re_void (tag : string) : regex :=
  Seq (lit_i ("<" ++ tag)%string)
  (Seq WordBoundary (Seq (Star (Chr not_gt)) (Chr is_gt))).

(** [/on\w+\s*=\s*[\x22'][^\x22']*[\x22']/gi] *)
Definition re_handler : regex :=
  Seq (lit_i "on")
  (Seq (Plus (Chr is_word))
  (Seq (Star (Chr is_space))
  (Seq (Chr is_equals)
  (Seq (Star (Chr is_space))
  (Seq (Chr is_quote)
  (Seq (Star (Chr not_quote)) (Chr is_quote))))))).

(** [/scheme\s*:/gi], for javascript, data and vbscript. *)
Definition re_scheme (scheme : string) : regex :=
  Seq (lit_i scheme) (Seq (Star (Chr is_space)) (Chr is_colon)).

(** [/<[^>]*>/g] *)
Definition re_tag : regex :=
  Seq (Chr is_lt) (Seq (Star (Chr not_gt)) (Chr is_gt)).

(** [/[<>\x22'&]/g] *)
Definition is_special (c : N) : bool :=
  (c =? 60) || (c =? 62) || (c =? 34) || (c =? 39) || (c =? 38).

Definition re_special : regex := Chr is_special.

(** [/\s+/g] *)
Definition re_spaces : regex := Plus (Chr is_space).

(** [/[\x00-\x08\x0B\x0C\x0E-\x1F\x7F]/g] *)
Definition is_control (c : N) : bool :=
  in_range 0 8 c || (c =? 11) || (c =? 12) || in_range 14 31 c || (c =? 127).

Definition re_control : regex := Chr is_control.

(** The [escapeMap] of the source, applied to the matched character. *)
Definition escapeMap (matched : jsstring) : jsstring :=
  match matched with
  | [60] => js "&lt;"
  | [62] => js "&gt;"
  | [34] => js "&quot;"
  | [39] => js "&#x27;"
  | [38] => js "&amp;"
  | _ => js "undefined"
  end.

Definition remove (r : regex) : jsstring -> jsstring :=
  replace_all r (fun _ => []).

(** ** [sanitizeText] on a string *)

(** The chain of [replace] calls on the trimmed text, up to the escaping. *)
Definition strip_markup (text : jsstring) : jsstring :=
  let text := remove (re_block "script") text in
  let text := remove (re_block "style") text in
  let text := remove (re_block "iframe") text in
  let text := remove (re_block "object") text in
  let text := remove (re_block "embed") text in
  let text := remove (re_void "link") text in
  let text := remove (re_void "meta") text in
  let text := remove re_handler text in
  let text := remove (re_scheme "javascript") text in
  let text := remove (re_scheme "data") text in
  let text := remove (re_scheme "vbscript") text in
  remove re_tag text.

Definition escape_special (text : jsstring) : jsstring :=
  replace_all re_special escapeMap text.

Definition collapse_spaces (text : jsstring) : jsstring :=
  trim (replace_all re_spaces (fun _ => js " ") text).

Definition remove_control (text : jsstring) : jsstring :=
  remove re_control text.

Definition sanitize_string (text : jsstring) : jsstring :=
  let text := trim text in
  let text := escape_special (strip_markup text) in
  let text := collapse_spaces text in
  remove_control text.

(* ================================================================== *)
(** * Values *)

(** The JavaScript values the program handles: the results of
    [JSON.parse], and [undefined] for a property that is missing.  A number
    is kept as the exact decimal [mant * 10 ^ expo] its literal denotes. *)
#[local] Unset Elimination Schemes.
Inductive value : Type :=
| VUndefined
| VNull
| VBool (b : bool)
| VNum (mant expo : Z)
| VStr (s : jsstring)
| VArr (items : list value)
| VObj (members : list (jsstring * value)).
#[local] Set Elimination Schemes.

(** A decimal is read as the nearest double, ties to even: it is the
    number zero exactly when its magnitude is at most [2 ^ -1075], half of
    the least positive double. *)
Definition rounds_to_zero (mant expo : Z) : bool :=
  ((mant =? 0) ||
   ((expo <? 0) && (Z.abs mant * 2 ^ 1075 <=? 10 ^ (- expo))))%Z.

Definition is_empty (s : jsstring) : bool :=
  match s with
  | [] => true
  | _ :: _ => false
  end.

(** [ToBoolean]: the test of [!x], [x || y], [x && y] and [Boolean(x)]. *)
Definition truthy (v : value) : bool :=
  match v with
  | VUndefined => false
  | VNull => false
  | VBool b => b
  | VNum mant expo => negb (rounds_to_zero mant expo)
  | VStr s => negb (is_empty s)
  | VArr _ => true
  | VObj _ => true
  end.

(** [typeof v === 'object'] *)
Definition typeof_object (v : value) : bool :=
  match v with
  | VNull | VArr _ | VObj _ => true
  | _ => false
  end.

(** A property of an object that [JSON.parse] built: the last member of
    that name wins. *)
Fixpoint lookup (key : jsstring) (members : list (jsstring * value))
  : option value :=
  match members with
  | [] => None
  | (k, v) :: rest =>
      match lookup key rest with
      | Some w => Some w
      | None => if jsstring_eqb k key then Some v else None
      end
  end.

(** [item.key] for a name that is neither an index nor on a prototype. *)
Definition get (item : value) (key : string) : value :=
  match item with
  | VObj members =>
      match lookup (js key) members with
      | Some v => v
      | None => VUndefined
      end
  | _ => VUndefined
  end.

(** [a || b] *)
Definition or_else (a b : value) : value := if truthy a then a else b.

(** [sanitizeText]: anything but a string gives the empty string. *)
Definition sanitizeText (text : value) : jsstring :=
  match text with
  | VStr s => sanitize_string s
  | _ => []
  end.

(* ================================================================== *)
(** * Tasks and their JSON text *)

Record task : Type := mkTask { text : jsstring; done : bool }.

Definition MIN_LENGTH : nat := 1.
Definition MAX_LENGTH : nat := 100.
Definition MAX_TASKS : nat := 1000.
Definition ALLOWED_FILE_SIZE : N := 1024 * 1024.

(** [JSON.stringify] on a task list and [JSON.parse], as the standard
    defines them: the first writes a code unit below 32 and a surrogate
    without its other half as an escape, the second accepts the JSON
    grammar. *)
Module JSON.

Definition quote_mark : N := 34.
Definition backslash : N := 92.

Definition hex_digit (d : N) : N := if d <? 10 then 48 + d else 87 + d.

(** [\uXXXX] with lower-case digits. *)
Definition unicode_escape (c : N) : jsstring :=
  [backslash; 117;
   hex_digit (c / 4096 mod 16); hex_digit (c / 256 mod 16);
   hex_digit (c / 16 mod 16); hex_digit (c mod 16)].

Definition is_high_surrogate (c : N) : bool := in_range 55296 56319 c.
Definition is_low_surrogate (c : N) : bool := in_range 56320 57343 c.

(** One code unit that is not half of a pair, as [QuoteJSONString] writes
    it. *)
Definition quote_unit (c : N) : jsstring :=
  if c =? 8 then [backslash; 98]
  else if c =? 9 then [backslash; 116]
  else if c =? 10 then [backslash; 110]
  else if c =? 12 then [backslash; 102]
  else if c =? 13 then [backslash; 114]
  else if c =? quote_mark then [backslash; quote_mark]
  else if c =? backslash then [backslash; backslash]
  else if (c <? 32) || is_high_surrogate c || is_low_surrogate c
       then unicode_escape c
  else [c].

(** The string is read by code points: a high surrogate followed by a low
    one is a pair and is written as it is. *)
Fixpoint quote_units (s : jsstring) : jsstring :=
  match s with
  | [] => []
  | c :: s' =>
      if is_high_surrogate c then
        match s' with
        | d :: s'' =>
            if is_low_surrogate d then c :: d :: quote_units s''
            else quote_unit c ++ quote_units s'
        | [] => quote_unit c
        end
      else quote_unit c ++ quote_units s'
  end.

Definition quote (s : jsstring) : jsstring :=
  quote_mark :: quote_units s ++ [quote_mark].

(** A task object has its properties in the order [text], [done], the
    order in which every object literal of the source creates them. *)
Definition stringify_task (t : task) : jsstring :=
  js "{" ++ quote (js "text") ++ js ":" ++ quote (text t) ++ js "," ++
  quote (js "done") ++ js ":" ++
  js (if done t then "true" else "false") ++ js "}".

Fixpoint join_comma (l : list jsstring) : jsstring :=
  match l with
  | [] => []
  | [x] => x
  | x :: l' => x ++ js "," ++ join_comma l'
  end.

(** [JSON.stringify(todos)] *)
Definition stringify (l : list task) : jsstring :=
  js "[" ++ join_comma (map stringify_task l) ++ js "]".

(** ** [JSON.parse] *)

Definition is_ws (c : N) : bool :=
  (c =? 32) || (c =? 9) || (c =? 10) || (c =? 13).

Fixpoint skip_ws (s : jsstring) : jsstring :=
  match s with
  | [] => []
  | c :: s' => if is_ws c then skip_ws s' else s
  end.

Definition is_digit (c : N) : bool := in_range 48 57 c.

Definition hex_value (c : N) : option N :=
  if in_range 48 57 c then Some (c - 48)
  else if in_range 97 102 c then Some (c - 87)
  else if in_range 65 70 c then Some (c - 55)
  else None.

Definition hex4 (a b c d : N) : option N :=
  match hex_value a, hex_value b, hex_value c, hex_value d with
  | Some x, Some y, Some z, Some w => Some (((x * 16 + y) * 16 + z) * 16 + w)
  | _, _, _, _ => None
  end.

(** The character a one-letter escape denotes. *)
Definition simple_escape (e : N) : option N :=
  if e =? quote_mark then Some quote_mark
  else if e =? backslash then Some backslash
  else if e =? 47 then Some 47
  else if e =? 98 then Some 8
  else if e =? 102 then Some 12
  else if e =? 110 then Some 10
  else if e =? 114 then Some 13
  else if e =? 116 then Some 9
  else None.

Definition cons_fst (c : N) (r : option (jsstring * jsstring))
  : option (jsstring * jsstring) :=
  match r with
  | Some (str, rest) => Some (c :: str, rest)
  | None => None
  end.

(** The characters of a string literal after its opening quote: the string
    denoted and the input after the closing quote. *)
Fixpoint parse_chars (s : jsstring) : option (jsstring * jsstring) :=
  match s with
  | [] => None
  | c :: s' =>
      if c =? quote_mark then Some ([], s')
      else if c =? backslash then
        match s' with
        | [] => None
        | e :: s'' =>
            if e =? 117 then
              match s'' with
              | h1 :: h2 :: h3 :: h4 :: s3 =>
                  match hex4 h1 h2 h3 h4 with
                  | Some u => cons_fst u (parse_chars s3)
                  | None => None
                  end
              | _ => None
              end
            else
              match simple_escape e with
              | Some u => cons_fst u (parse_chars s'')
              | None => None
              end
        end
      else if c <? 32 then None
      else cons_fst c (parse_chars s')
  end.

(** A run of digits, accumulated in base ten and counted. *)
Fixpoint digits (acc : Z) (count : nat) (s : jsstring)
  : Z * nat * jsstring :=
  match s with
  | c :: s' =>
      if is_digit c
      then digits (acc * 10 + Z.of_N (c - 48)) (S count) s'
      else (acc, count, s)
  | [] => (acc, count, s)
  end.

(** The integer part: a single zero, or a run that starts with 1 to 9. *)
Definition parse_int (s : jsstring) : option (Z * jsstring) :=
  match s with
  | c :: s' =>
      if c =? 48 then Some (0%Z, s')
      else if in_range 49 57 c then
        match digits 0 0 s with
        | (v, _, rest) => Some (v, rest)
        end
      else None
  | [] => None
  end.

(** The input after the character [c], when it starts with it. *)
Definition eat (c : N) (s : jsstring) : option jsstring :=
  match s with
  | x :: rest => if x =? c then Some rest else None
  | [] => None
  end.

(** The same after white space. *)
Definition expect (c : N) (s : jsstring) : option jsstring :=
  eat c (skip_ws s).

(** The fraction, when there is one: the mantissa with the digits of the
    fraction appended, and how many they are. *)
Definition parse_frac (int : Z) (s : jsstring)
  : option (Z * nat * jsstring) :=
  match eat 46 s with
  | Some s' =>
      match digits int 0 s' with
      | (_, O, _) => None
      | (v, S n, rest) => Some (v, S n, rest)
      end
  | None => Some (int, O, s)
  end.

(** The sign of an exponent, when there is one. *)
Definition parse_sign (s : jsstring) : bool * jsstring :=
  match eat 45 s with
  | Some t => (true, t)
  | None =>
      match eat 43 s with
      | Some t => (false, t)
      | None => (false, s)
      end
  end.

(** The exponent, when there is one. *)
Definition parse_exp (s : jsstring) : option (Z * jsstring) :=
  match s with
  | c :: s' =>
      if (c =? 101) || (c =? 69) then
        let '(neg, s1) := parse_sign s' in
        match digits 0 0 s1 with
        | (_, O, _) => None
        | (v, S _, rest) => Some (if neg then (- v)%Z else v, rest)
        end
      else Some (0%Z, s)
  | [] => Some (0%Z, s)
  end.

Definition parse_number (s : jsstring) : option (value * jsstring) :=
  let '(neg, s0) :=
    match eat 45 s with
    | Some t => (true, t)
    | None => (false, s)
    end in
  match parse_int s0 with
  | None => None
  | Some (int, s1) =>
      match parse_frac int s1 with
      | None => None
      | Some (mant, places, s2) =>
          match parse_exp s2 with
          | None => None
          | Some (e, s3) =>
              Some (VNum (if neg then (- mant)%Z else mant)
                         (e - Z.of_nat places)%Z, s3)
          end
      end
  end.

(** A keyword: the input must start with it. *)
Definition parse_word (w : string) (v : value) (s : jsstring)
  : option (value * jsstring) :=
  if startsWith s (js w) then Some (v, skipn (List.length (js w)) s)
  else None.

(** The recursive descent.  Every call passes a smaller counter on; two
    calls in a row consume at least one character between them, so that a
    counter of twice the length of the input, and two, is never used up
    ([parse_value_enough] shows that a larger one changes nothing). *)
Fixpoint parse_value (n : nat) (s : jsstring) {struct n}
  : option (value * jsstring) :=
  match n with
  | O => None
  | S n' =>
      match skip_ws s with
      | [] => None
      | c :: r =>
          if c =? 91 then                         (* [ *)
            match expect 93 r with
            | Some r' => Some (VArr [], r')
            | None => parse_elements n' [] r
            end
          else if c =? 123 then                   (* { *)
            match expect 125 r with
            | Some r' => Some (VObj [], r')
            | None => parse_members n' [] r
            end
          else if c =? quote_mark then
            match parse_chars r with
            | Some (str, r') => Some (VStr str, r')
            | None => None
            end
          else if c =? 110 then parse_word "null" VNull (c :: r)
          else if c =? 116 then parse_word "true" (VBool true) (c :: r)
          else if c =? 102 then parse_word "false" (VBool false) (c :: r)
          else parse_number (c :: r)
      end
  end

(** The elements of an array after its bracket, [acc] in reverse: a
    value, then a comma and the other elements, or the closing bracket. *)
with parse_elements (n : nat) (acc : list value) (s : jsstring) {struct n}
  : option (value * jsstring) :=
  match n with
  | O => None
  | S n' =>
      match parse_value n' s with
      | None => None
      | Some (v, r) =>
          match expect 44 r with
          | Some r' => parse_elements n' (v :: acc) r'
          | None =>
              match expect 93 r with
              | Some r' => Some (VArr (rev (v :: acc)), r')
              | None => None
              end
          end
      end
  end

(** The members of an object after its brace, [acc] in reverse: a key, a
    colon and a value, then a comma and the other members, or the closing
    brace. *)
with parse_members (n : nat) (acc : list (jsstring * value)) (s : jsstring)
  {struct n} : option (value * jsstring) :=
  match n with
  | O => None
  | S n' =>
      match expect quote_mark s with
      | None => None
      | Some r =>
          match parse_chars r with
          | None => None
          | Some (key, r1) =>
              match expect 58 r1 with
              | None => None
              | Some r2 =>
                  match parse_value n' r2 with
                  | None => None
                  | Some (v, r3) =>
                      match expect 44 r3 with
                      | Some r4 => parse_members n' ((key, v) :: acc) r4
                      | None =>
                          match expect 125 r3 with
                          | Some r4 =>
                              Some (VObj (rev ((key, v) :: acc)), r4)
                          | None => None
                          end
                      end
                  end
              end
          end
      end
  end.

(** [JSON.parse(s)]: [None] stands for the [SyntaxError] it throws. *)
Definition parse (s : jsstring) : option value :=
  match parse_value (2 * List.length s + 2) s with
  | Some (v, rest) =>
      match skip_ws rest with
      | [] => Some v
      | _ :: _ => None
      end
  | None => None
  end.

End JSON.

(* ================================================================== *)
(** * The session: state, exceptions and effects *)

(** The mutable state the functions of the source share: the globals
    [todos] and [unsavedChanges], the check box [autosaveToggle.checked],
    the entry of [localStorage] under [STORAGE_KEY] ([None] when there is
    none), and the messages [showError] has displayed, the latest first. *)
Record state : Type := mkState {
  todos : list task;
  unsavedChanges : bool;
  autosaveChecked : bool;
  storage : option jsstring;
  shown : list string
}.

Inductive exn : Type :=
| SyntaxError                  (* thrown by JSON.parse *)
| Error (message : string)     (* thrown by the source itself *)
| QuotaExceededError           (* thrown by localStorage.setItem *)
| TypeError.                   (* a property of undefined *)

(** A computation returns a value or throws, and leaves a state. *)
Inductive outcome (A : Type) : Type :=
| Ret (a : A) (st : state)
| Throw (e : exn) (st : state).

Arguments Ret {A} a st.
Arguments Throw {A} e st.

Definition M (A : Type) : Type := state -> outcome A.

Definition ret {A} (a : A) : M A := fun st => Ret a st.

Definition throw {A} (e : exn) : M A := fun st => Throw e st.

Definition bind {A B} (c : M A) (k : A -> M B) : M B :=
  fun st =>
    match c st with
    | Ret a st' => k a st'
    | Throw e st' => Throw e st'
    end.

(** [try { body } catch (error) { handler }] *)
Definition try_catch {A} (body : M A) (handler : exn -> M A) : M A :=
  fun st =>
    match body st with
    | Ret a st' => Ret a st'
    | Throw e st' => handler e st'
    end.

Declare Scope js_scope.
Delimit Scope js_scope with js.
Notation "x <- c ;; k" := (bind c (fun x => k))
  (at level 61, c at next level, right associativity) : js_scope.
Notation "c ;; k" := (bind c (fun _ => k))
  (at level 61, right associativity) : js_scope.

Definition state_of {A} (o : outcome A) : state :=
  match o with
  | Ret _ st => st
  | Throw _ st => st
  end.

Definition read {A} (f : state -> A) : M A := fun st => Ret (f st) st.

Definition set_todos (l : list task) : M unit :=
  fun st => Ret tt (mkState l (unsavedChanges st) (autosaveChecked st)
                            (storage st) (shown st)).

Definition set_unsavedChanges (b : bool) : M unit :=
  fun st => Ret tt (mkState (todos st) b (autosaveChecked st)
                            (storage st) (shown st)).

(** [showError(message)]; the timer that hides the banner is left out. *)
Definition showError (message : string) : M unit :=
  fun st => Ret tt (mkState (todos st) (unsavedChanges st)
                            (autosaveChecked st) (storage st)
                            (message :: shown st)).

(** [localStorage.getItem(STORAGE_KEY)], [null] being [None]. *)
Definition getItem : M (option jsstring) := read storage.

(** [!data] on what [getItem] returned: [null] and the empty string. *)
Definition falsy_item (data : option jsstring) : bool :=
  match data with
  | None => true
  | Some d => is_empty d
  end.

Definition item_text (data : option jsstring) : jsstring :=
  match data with
  | None => js "null"
  | Some d => d
  end.

Section Session.

(** What the program takes from its environment: the Unicode lower-casing
    of [String.prototype.toLowerCase], and whether [localStorage.setItem]
    refuses a value, which it does by throwing. *)
Variable toLowerCase : jsstring -> jsstring.
Variable setItem_refuses : jsstring -> bool.

Local Open Scope js_scope.

(** [localStorage.setItem(STORAGE_KEY, data)] *)
Definition setItem (data : jsstring) : M unit :=
  fun st =>
    if setItem_refuses data then Throw QuotaExceededError st
    else Ret tt (mkState (todos st) (unsavedChanges st) (autosaveChecked st)
                         (Some data) (shown st)).

(** ** [validateTask] *)

Inductive validation : Type :=
| Invalid (error : string)
| Valid (sanitized : jsstring).

(** [todos.some(todo => todo.text.toLowerCase() === sanitized.toLowerCase())] *)
Definition isDuplicate (sanitized : jsstring) (l : list task) : bool :=
  existsb (fun todo =>
             jsstring_eqb (toLowerCase (text todo)) (toLowerCase sanitized)) l.

Definition validateTask (input : value) (l : list task) : validation :=
  let sanitized := sanitizeText input in
  if is_empty sanitized || (List.length sanitized <? MIN_LENGTH)%nat then
    Invalid "Task cannot be empty or contain only special characters."
  else if (MAX_LENGTH <? List.length sanitized)%nat then
    Invalid "Task must be 100 characters or less."
  else if isDuplicate sanitized l then
    Invalid "This task already exists!"
  else if (MAX_TASKS <=? List.length l)%nat then
    Invalid "Maximum 1000 tasks allowed."
  else Valid sanitized.

(** ** [saveToLocal] *)

(** The limit of five times 1024 * 1024 code units, and [length] as the
    number it is compared with. *)
Definition SIZE_LIMIT : N := 5 * 1024 * 1024.

Definition length_N (s : jsstring) : N := N.of_nat (List.length s).

Definition saveToLocal : M bool :=
  checked <- read autosaveChecked ;;
  if checked then
    try_catch
      (l <- read todos ;;
       let dataString := JSON.stringify l in
       if SIZE_LIMIT <? length_N dataString then
         showError "Data too large to save automatically." ;;
         ret false
       else
         setItem dataString ;;
         set_unsavedChanges false ;;
         ret true)
      (fun _ =>
         showError "Failed to save data. Storage may be full." ;;
         ret false)
  else ret true.

(** ** [loadFromLocal] *)

(** The object the [map] of [loadFromLocal] builds from an item. *)
Definition coerce (item : value) : task :=
  mkTask (sanitizeText (or_else (get item "text") (VStr [])))
         (truthy (get item "done")).

Definition loadFromLocal : M (list task) :=
  try_catch
    (data <- getItem ;;
     if falsy_item data then ret []
     else
       match JSON.parse (item_text data) with
       | None => throw SyntaxError
       | Some (VArr parsed) =>
           ret (firstn MAX_TASKS
                  (filter (fun item => (0 <? List.length (text item))%nat)
                     (map coerce
                        (filter (fun item =>
                                   truthy item && typeof_object item)
                                parsed))))
       | Some _ => throw (Error "Invalid data format")
       end)
    (fun _ =>
       showError "Failed to load saved data. Starting fresh." ;;
       ret []).

(** ** The handlers of a row: delete and toggle *)

(** [todos.splice(idx, 1)] *)
Fixpoint splice1 (idx : nat) (l : list task) : list task :=
  match l, idx with
  | [], _ => []
  | _ :: l', O => l'
  | t :: l', S i => t :: splice1 i l'
  end.

Definition deleteTask (idx : nat) : M unit :=
  l <- read todos ;;
  set_todos (splice1 idx l) ;;
  set_unsavedChanges true ;;
  saveToLocal ;;
  ret tt.

(** [todos[idx].done = !todos[idx].done]: the element must be there. *)
Fixpoint toggle_at (idx : nat) (l : list task) : option (list task) :=
  match l, idx with
  | [], _ => None
  | t :: l', O => Some (mkTask (text t) (negb (done t)) :: l')
  | t :: l', S i =>
      match toggle_at i l' with
      | Some l'' => Some (t :: l'')
      | None => None
      end
  end.

Definition toggleTask (idx : nat) : M unit :=
  l <- read todos ;;
  match toggle_at idx l with
  | None => throw TypeError
  | Some l' =>
      set_todos l' ;;
      set_unsavedChanges true ;;
      saveToLocal ;;
      ret tt
  end.

(** ** [addTask], on the value of the input box *)

Definition addTask (input : jsstring) : M unit :=
  l <- read todos ;;
  match validateTask (VStr input) l with
  | Invalid error => showError error
  | Valid sanitized =>
      set_todos (l ++ [mkTask sanitized false]) ;;
      set_unsavedChanges true ;;
      saved <- saveToLocal ;;
      if saved then ret tt
      else
        l' <- read todos ;;
        set_todos (removelast l')
  end.

(** ** [importTasks] *)

(** The chosen file: its size in bytes, its MIME type, its name, and the
    text [readAsText] decodes from it, [None] when the read fails. *)
Record file : Type := mkFile {
  size : N;
  type : jsstring;
  name : jsstring;
  content : option jsstring
}.

(** [/\r?\n/] *)
Definition re_newline : regex := Seq (Opt (Chr (N.eqb 13))) (Chr (N.eqb 10)).

(** [/^\[[xX ]\]\s*/] *)
Definition is_mark (c : N) : bool := (c =? 120) || (c =? 88) || (c =? 32).

Definition re_marker : regex :=
  Seq Bol (Seq (Chr (N.eqb 91)) (Seq (Chr is_mark)
          (Seq (Chr (N.eqb 93)) (Star (Chr is_space))))).

(** The body of the loop over the lines, [newTodos] being the list built
    so far. *)
Fixpoint import_lines (lines : list jsstring) (newTodos : list task)
  : list task :=
  match lines with
  | [] => newTodos
  | line :: rest =>
      let sanitizedLine := sanitizeText (VStr line) in
      if is_empty sanitizedLine then import_lines rest newTodos
      else
        let done := startsWith sanitizedLine (js "[x]") ||
                    startsWith sanitizedLine (js "[X]") in
        let text := replace_first re_marker (fun _ => []) sanitizedLine in
        let text := sanitizeText (VStr text) in
        if negb (is_empty text) && (List.length text <=? MAX_LENGTH)%nat
        then import_lines rest (newTodos ++ [mkTask text done])
        else import_lines rest newTodos
  end.

(** [content.split(/\r?\n/).filter(line => line.trim())] *)
Definition nonblank_lines (content : jsstring) : list jsstring :=
  filter (fun line => negb (is_empty (trim line))) (split re_newline content).

(** A length in decimal, as a template literal renders it. *)
Definition count_text (n : nat) : string :=
  NilEmpty.string_of_uint (Nat.to_uint n).

(** The handler [reader.onload], on the text that was read. *)
Definition reader_onload (content : jsstring) : M unit :=
  try_catch
    (let lines := nonblank_lines content in
     if (MAX_TASKS <? List.length lines)%nat then
       showError "File contains too many tasks. Maximum 1000 allowed."
     else
       let newTodos := import_lines lines [] in
       match newTodos with
       | [] => showError "No valid tasks found in the file."
       | _ :: _ =>
           set_todos newTodos ;;
           set_unsavedChanges true ;;
           saveToLocal ;;
           showError (count_text (List.length newTodos) ++
                      " tasks imported successfully!")
       end)
    (fun _ =>
       showError "Error processing file. Please check the file format.").

(** The handler [reader.onerror]. *)
Definition reader_onerror : M unit :=
  showError "Error reading file. Please try again.".

(** The checks of [importTasks] on the chosen file; [true] when the read
    is started. *)
Definition importTasks (chosen : option file) : M bool :=
  match chosen with
  | None => ret false
  | Some f =>
      if ALLOWED_FILE_SIZE <? size f then
        showError "File too large. Maximum size is 1MB." ;;
        ret false
      else if negb (includes (type f) (js "text")) &&
              negb (endsWith (name f) (js ".txt")) then
        showError "Please select a valid text file (.txt)." ;;
        ret false
      else ret true
  end.

(** An import from the choice of the file to the end of the read. *)
Definition import (chosen : option file) : M unit :=
  started <- importTasks chosen ;;
  if started then
    match chosen with
    | Some f =>
        match content f with
        | Some text => reader_onload text
        | None => reader_onerror
        end
    | None => ret tt
    end
  else ret tt.

(** ** The operations on a session *)

Inductive operation : Type :=
| AddTask (input : jsstring)
| DeleteTask (idx : nat)
| ToggleTask (idx : nat)
| ImportFile (chosen : option file)
| LoadSaved.

(** [todos = loadFromLocal()] *)
Definition load : M unit :=
  l <- loadFromLocal ;;
  set_todos l.

Definition run (op : operation) : M unit :=
  match op with
  | AddTask input => addTask input
  | DeleteTask idx => deleteTask idx
  | ToggleTask idx => toggleTask idx
  | ImportFile chosen => import chosen
  | LoadSaved => load
  end.


End Session.

(* ================================================================== *)
(** * The vocabulary of the specification *)

(** [s'] is what is left of [s] after some of its code units. *)
Definition suffix_of (s' s : jsstring) : Prop := exists pre, s = pre ++ s'.

(** The raw characters that must not survive sanitization: the angle
    brackets and the two quotes. *)
Definition is_raw (c : N) : bool := is_lt c || is_gt c || is_quote c.

Definition clean_unit (c : N) : bool := negb (is_raw c) && negb (is_control c).

(** The entity the table [escapeMap] gives for each of the five characters
    [<], [>], the double quote, ['] and [&]; another character stands for
    itself. *)
Definition entity (c : N) : jsstring :=
  if c =? 60 then js "&lt;"
  else if c =? 62 then js "&gt;"
  else if c =? 34 then js "&quot;"
  else if c =? 39 then js "&#x27;"
  else if c =? 38 then js "&amp;"
  else [c].

(** The text that survives the removals of [sanitizeText]: the steps of
    the source without the escaping. *)
Definition surviving (s : jsstring) : jsstring :=
  remove_control (collapse_spaces (strip_markup (trim s))).

(** The white space at the head of a text. *)
Fixpoint lead (t : jsstring) : nat :=
  match t with
  | c :: t' => if is_space c then S (lead t') else O
  | [] => O
  end.

(** A string whose white space is single spaces between other characters:
    it does not start or end with white space, and each white-space
    character is a space that no white space follows. *)
Definition head_ok (s : jsstring) : bool :=
  match s with
  | [] => true
  | c :: _ => negb (is_space c)
  end.

Fixpoint spaces_single (s : jsstring) : bool :=
  match s with
  | [] => true
  | c :: s' =>
      (if is_space c then (c =? 32) && head_ok s' else true) &&
      spaces_single s'
  end.

Definition single_spaced (s : jsstring) : bool :=
  head_ok s && head_ok (rev s) && spaces_single s.

(** [s] starts with [name], up to the case of the ASCII letters. *)
Fixpoint strip_ci (name s : jsstring) : option jsstring :=
  match name, s with
  | [], _ => Some s
  | a :: name', c :: s' => if eq_ci a c then strip_ci name' s' else None
  | _ :: _, [] => None
  end.

(** [s] starts with the scheme [name], white space or none, and a colon;
    [s] holds such a scheme somewhere. *)
Definition scheme_here (name : string) (s : jsstring) : bool :=
  match strip_ci (js name) s with
  | Some rest =>
      match trimStart rest with
      | c :: _ => is_colon c
      | [] => false
      end
  | None => false
  end.

Fixpoint has_scheme (name : string) (s : jsstring) : bool :=
  scheme_here name s ||
  match s with
  | [] => false
  | _ :: s' => has_scheme name s'
  end.

Definition is_amp (c : N) : bool := c =? 38.

(** A plain text: no ampersand, none of the three schemes, single-spaced. *)
Definition plain (s : jsstring) : bool :=
  forallb (fun c => negb (is_amp c)) s &&
  negb (has_scheme "javascript" s) &&
  negb (has_scheme "data" s) &&
  negb (has_scheme "vbscript" s) &&
  single_spaced s.

(** ** The store *)

(** What the specification says of a loaded record: its text is the
    sanitized [text] property, the empty string when that property is
    missing or falsy; its flag is the [done] property as a boolean. *)
Definition record_text (item : value) : jsstring :=
  if truthy (get item "text") then sanitizeText (get item "text") else [].

Definition record_done (item : value) : bool := truthy (get item "done").

(** An item is a record when it is an object; [null] is not. *)
Definition is_record (item : value) : bool :=
  match item with
  | VObj _ | VArr _ => true
  | _ => false
  end.

(** The first [n] valid records of a parsed array: the items that are not
    records are passed over, the records whose text comes out empty are
    dropped. *)
Fixpoint valid_records (items : list value) (n : nat) : list task :=
  match items with
  | [] => []
  | item :: rest =>
      match n with
      | O => []
      | S n' =>
          if is_record item && negb (is_empty (record_text item))
          then mkTask (record_text item) (record_done item)
               :: valid_records rest n'
          else valid_records rest n
      end
  end.

Definition is_array (v : value) : bool :=
  match v with
  | VArr _ => true
  | _ => false
  end.

(** The value [JSON.parse] gives back for the text of a task. *)
Definition task_value (t : task) : value :=
  VObj [(js "text", VStr (text t)); (js "done", VBool (done t))].

(** A state that differs by one more message shown. *)
Definition reporting (message : string) (st : state) : state :=
  mkState (todos st) (unsavedChanges st) (autosaveChecked st) (storage st)
          (message :: shown st).

(** ** The task list *)




(** A task as the session keeps it: its text has 1 to 100 characters and
    is the result of sanitizing some input. *)
Definition sanitized_task (t : task) : Prop :=
  (exists raw, text t = sanitizeText (VStr raw)) /\
  (1 <= List.length (text t) <= MAX_LENGTH)%nat.

(** A task whose text the sanitizer leaves as it is. *)
Definition stable_task (t : task) : Prop :=
  sanitizeText (VStr (text t)) = text t /\
  (1 <= List.length (text t) <= MAX_LENGTH)%nat.


(** Lower case on the ASCII letters, which is what [toLowerCase] does to
    ASCII text; it stands for [toLowerCase] in the examples. *)
Definition lower_ascii (s : jsstring) : jsstring :=
  map (fun c => if in_range 65 90 c then c + 32 else c) s.

(** ** The importer *)

(** A file that passes the two checks of [importTasks]. *)
Definition accepted (f : file) : Prop :=
  size f <= ALLOWED_FILE_SIZE /\
  (includes (type f) (js "text") = true \/
   endsWith (name f) (js ".txt") = true).

(** The text of the example of the specification, with its two line
    feeds. *)
Definition two_lines : jsstring :=
  js "[x] Buy milk" ++ [10] ++ js "[ ] Walk dog" ++ [10].

(* ================================================================== *)
(** * The rest of the page *)

(** The functions and handlers of [script.js] beside the pipeline above:
    the sample tasks, the export, the toggle of the automatic save, the
    start of the page and the warning before it is left. *)

Definition set_autosaveChecked (b : bool) : M unit :=
  fun st => Ret tt (mkState (todos st) (unsavedChanges st) b
                            (storage st) (shown st)).

(** The line [exportTasks] writes for a task, and the lines joined by
    line feeds. *)
Definition export_line (t : task) : jsstring :=
  js (if done t then "[x]" else "[ ]") ++ js " " ++ text t.

Fixpoint join_lines (l : list jsstring) : jsstring :=
  match l with
  | [] => []
  | [x] => x
  | x :: l' => x ++ [10] ++ join_lines l'
  end.

Definition export_content (l : list task) : jsstring :=
  join_lines (map export_line l).

(** The text a blob holds for a string: [new Blob([content])] converts the
    string to scalar values before it encodes them in UTF-8, so that a
    surrogate outside a pair becomes U+FFFD, as [toWellFormed] does; the
    blob is kept as this text, which its bytes encode. *)
Definition is_lead (c : N) : bool := in_range 55296 56319 c.
Definition is_trail (c : N) : bool := in_range 56320 57343 c.

Fixpoint toWellFormed (s : jsstring) : jsstring :=
  match s with
  | [] => []
  | c :: t =>
      if is_lead c then
        match t with
        | d :: t' =>
            if is_trail d then c :: d :: toWellFormed t'
            else 65533 :: toWellFormed t
        | [] => [65533]
        end
      else if is_trail c then 65533 :: toWellFormed t
      else c :: toWellFormed t
  end.

(** The tasks [getTasks] loads. *)
Definition sample_tasks : list task :=
  [mkTask (js "Buy groceries for next week") false;
   mkTask (js "Renew car insurance") false;
   mkTask (js "Sign up for online course") false].

(** [localStorage.getItem('autosaveEnabled') === 'true'] *)
Definition flag_is_true (flag : option jsstring) : bool :=
  match flag with
  | Some v => jsstring_eqb v (js "true")
  | None => false
  end.

(** The code after the declarations, run when the page starts: [flag] is
    the entry of [localStorage] under [autosaveEnabled].  The list is
    loaded when the flag is set, and again when the box is checked. *)
Definition init (flag : option jsstring) : M unit :=
  ((if flag_is_true flag then
      set_autosaveChecked true ;;
      l <- loadFromLocal ;;
      set_todos l
    else ret tt) ;;
   checked <- read autosaveChecked ;;
   if checked then
     l <- loadFromLocal ;;
     set_todos l
   else ret tt)%js.

(** The page as it starts: no task, nothing unsaved, nothing shown; the
    box as the browser presents it and the blob that is stored. *)
Definition fresh (checked : bool) (blob : option jsstring) : state :=
  mkState [] false checked blob [].

(** The handler of [beforeunload] asks for a confirmation in this case. *)
Definition warns_before_unload (st : state) : bool :=
  negb (autosaveChecked st) && unsavedChanges st.

Section Page.

Variable toLowerCase : jsstring -> jsstring.
Variable setItem_refuses : jsstring -> bool.

(** Whether the download of a blob, given by its text, fails (the blob,
    its URL or the click on the link throws), and whether
    [localStorage.setItem] refuses the flag of the automatic save. *)
Variable download_fails : jsstring -> bool.
Variable setFlag_refuses : jsstring -> bool.

Local Open Scope js_scope.

(** [getTasks] *)
Definition getTasks : M unit :=
  l <- read todos ;;
  match l with
  | _ :: _ => ret tt
  | [] =>
      set_todos sample_tasks ;;
      set_unsavedChanges true ;;
      saveToLocal setItem_refuses ;;
      ret tt
  end.

Definition download (blob : jsstring) : M unit :=
  fun st => if download_fails blob then Throw TypeError st else Ret tt st.

(** [exportTasks]; the computation returns the text of the blob that was
    offered for download, the name of the file, made of the date, being
    left out. *)
Definition exportTasks : M (option jsstring) :=
  try_catch
    (l <- read todos ;;
     let content := export_content l in
     let blob := toWellFormed content in
     download blob ;;
     set_unsavedChanges false ;;
     showError "Tasks exported successfully!" ;;
     ret (Some blob))
    (fun _ =>
       showError "Failed to export tasks." ;;
       ret None).

(** [localStorage.setItem('autosaveEnabled', value)] *)
Definition setFlag (value : jsstring) : M unit :=
  fun st => if setFlag_refuses value then Throw QuotaExceededError st
            else Ret tt st.

(** The handler of the change of [autosaveToggle], [b] being the state
    the user gave the box; the computation returns the flag it wrote. *)
Definition autosaveChanged (b : bool) : M (option jsstring) :=
  set_autosaveChecked b ;;
  try_catch
    (let value := js (if b then "true" else "false") in
     setFlag value ;;
     (if b then saveToLocal setItem_refuses ;; ret tt else ret tt) ;;
     ret (Some value))
    (fun _ =>
       showError "Failed to update auto-save settings." ;;
       ret None).

(** What the user does on the page. *)
Inductive action : Type :=
| Edit (op : operation)
| Sample
| Export
| Autosave (b : bool).

Definition perform (a : action) : M unit :=
  match a with
  | Edit op => run toLowerCase setItem_refuses op
  | Sample => getTasks
  | Export => exportTasks ;; ret tt
  | Autosave b => autosaveChanged b ;; ret tt
  end.

Definition after (a : action) (st : state) : state :=
  state_of (perform a st).

End Page.

(** ** The vocabulary of the further properties *)

(** A text as the list keeps it: not empty, without raw or control
    character, and without other white space than the plain space. *)
Definition plain_space_only (x : N) : bool := negb (is_space x) || (x =? 32).

Definition kept_text (s : jsstring) : Prop :=
  s <> [] /\ forallb clean_unit s = true /\
  forallb plain_space_only s = true.

(** The blob is the text of the list. *)
Definition synced (st : state) : Prop :=
  storage st = Some (JSON.stringify (todos st)).

(** A list within the limits of [validateTask]. *)
Definition bounded (l : list task) : Prop :=
  (List.length l <= MAX_TASKS)%nat /\
  Forall (fun t => (List.length (text t) <= MAX_LENGTH)%nat) l.


(** A line without line feed and carriage return. *)
Definition one_line (s : jsstring) : Prop :=
  forall c, In c s -> c <> 10 /\ c <> 13.

(** A task as the blob of an export holds it, and what the conversion of
    the blob does to a character: it keeps it, or writes U+FFFD for a
    surrogate. *)
Definition shipped (t : task) : task :=
  mkTask (toWellFormed (text t)) (done t).


(** What [loadFromLocal] makes of a task that was saved. *)
Definition reloaded (t : task) : task :=
  mkTask (sanitizeText (VStr (text t))) (done t).

(* ================================================================== *)
(** * The matcher and [replace] *)

Lemma suffix_of_refl (s : jsstring) : suffix_of s s.
Proof. exists []; reflexivity. Qed.

Lemma suffix_of_trans (a b c : jsstring) :
  suffix_of a b -> suffix_of b c -> suffix_of a c.
Proof.
  intros [x ->] [y ->]. exists (y ++ x). now rewrite app_assoc.
Qed.

Lemma suffix_of_cons (a s : jsstring) (c : N) :
  suffix_of a s -> suffix_of a (c :: s).
Proof. intros [x ->]. now exists (c :: x). Qed.

Lemma suffix_of_In (a s : jsstring) (c : N) :
  suffix_of a s -> In c a -> In c s.
Proof. intros [x ->] H. apply in_or_app. now right. Qed.

(** A match that succeeds has called its continuation on a position
    further in the input. *)
Lemma m_reaches (r : regex) :
  forall p s k res,
    m r p s k = Some res ->
    exists p' s', suffix_of s' s /\ k p' s' = Some res.
Proof.
  induction r as [cls | r1 IH1 r2 IH2 | r1 IH1 | r1 IH1 | r1 IH1 | |];
    intros p s k res H; simpl in H.
  - destruct s as [|c s']; [discriminate|].
    destruct (cls c); [|discriminate].
    exists (Some c), s'. split; [now exists [c] | assumption].
  - apply IH1 in H as (p1 & s1 & Hs1 & H).
    apply IH2 in H as (p2 & s2 & Hs2 & H).
    exists p2, s2. split; [eapply suffix_of_trans; eassumption | assumption].
  - revert H. generalize (List.length s) as n. intros n. revert p s.
    induction n as [|n IHn]; intros p s H; cbn [star_loop] in H.
    + exists p, s. split; [apply suffix_of_refl | assumption].
    + match type of H with
      | match ?e with _ => _ end = _ => destruct e as [res'|] eqn:E
      end.
      * injection H as ->.
        apply IH1 in E as (p1 & s1 & Hs1 & E).
        destruct (List.length s1 <? List.length s)%nat; [|discriminate].
        apply IHn in E as (p2 & s2 & Hs2 & E).
        exists p2, s2.
        split; [eapply suffix_of_trans; eassumption | assumption].
      * exists p, s. split; [apply suffix_of_refl | assumption].
  - destruct (m r1 p s k) as [res'|] eqn:E.
    + injection H as ->. now apply IH1 in E.
    + exists p, s. split; [apply suffix_of_refl | assumption].
  - destruct (m r1 p s (fun _ s' => Some s')); [discriminate|].
    exists p, s. split; [apply suffix_of_refl | assumption].
  - destruct (xorb _ _); [|discriminate].
    exists p, s. split; [apply suffix_of_refl | assumption].
  - destruct p; [discriminate|].
    exists None, s. split; [apply suffix_of_refl | assumption].
Qed.

(** A matcher looks at its continuation only at positions of its input. *)
Lemma m_ext (r : regex) :
  forall p s k1 k2,
    (forall p' s', (List.length s' <= List.length s)%nat ->
                   k1 p' s' = k2 p' s') ->
    m r p s k1 = m r p s k2.
Proof.
  induction r as [cls | r1 IH1 r2 IH2 | r1 IH1 | r1 IH1 | r1 IH1 | |];
    intros p s k1 k2 H; cbn [m].
  - destruct s as [|c s']; [reflexivity|].
    destruct (cls c); [|reflexivity]. apply H. cbn. lia.
  - apply IH1. intros p' s' Hs. apply IH2. intros p'' s'' Hs'.
    apply H. lia.
  - generalize (List.length s) at 1 2 as n. intros n. revert p s H.
    induction n as [|n IHn]; intros p s H; cbn [star_loop].
    + now apply H.
    + rewrite (H p s (Nat.le_refl _)).
      erewrite IH1; [reflexivity|].
      intros p' s' Hs. cbv beta.
      destruct (List.length s' <? List.length s)%nat eqn:E; [|reflexivity].
      apply IHn. intros p'' s'' Hs'. apply H. lia.
  - rewrite (IH1 p s k1 k2 H). now rewrite (H p s (Nat.le_refl _)).
  - now rewrite (H p s (Nat.le_refl _)).
  - now rewrite (H p s (Nat.le_refl _)).
  - now rewrite (H p s (Nat.le_refl _)).
Qed.

Lemma m_never (r : regex) p s : m r p s (fun _ _ => None) = None.
Proof.
  destruct (m r p s (fun _ _ => None)) as [res|] eqn:E; [|reflexivity].
  apply m_reaches in E as (p' & s' & _ & E). discriminate.
Qed.

(** The bound on the iterations of [r*] is never reached: any bound from
    the length of the input on gives the same match. *)
Lemma star_loop_enough (r : regex) (k : cont) :
  forall n p s,
    (List.length s <= n)%nat ->
    star_loop (m r) k n p s = star_loop (m r) k (List.length s) p s.
Proof.
  assert (forall n p s, (List.length s <= n)%nat ->
            star_loop (m r) k (S n) p s = star_loop (m r) k n p s) as Hstep.
  { induction n as [|n IHn]; intros p s Hn.
    - destruct s; [|cbn in Hn; lia]. cbn [star_loop List.length Nat.ltb
                                            Nat.leb].
      replace (fun (p' : option N) (s' : jsstring) =>
                 if (List.length s' <? 0)%nat then k p' s' else None)
        with (fun (_ : option N) (_ : jsstring) => @None jsstring).
      + now rewrite m_never.
      + reflexivity.
    - cbn [star_loop].
      erewrite (m_ext r p s); [reflexivity|].
      intros p' s' Hs. cbv beta.
      destruct (List.length s' <? List.length s)%nat eqn:E; [|reflexivity].
      apply Nat.ltb_lt in E. apply (IHn p' s'). lia. }
  intros n p s Hn.
  induction Hn as [|n Hn IH]; [reflexivity|].
  now rewrite Hstep.
Qed.

(** The text matched in a sequence lies before the text its second part
    matches. *)
Lemma m_Seq_reaches (r1 r2 : regex) p s k res :
  m (Seq r1 r2) p s k = Some res ->
  exists p' s', suffix_of s' s /\ m r2 p' s' k = Some res.
Proof. simpl. apply m_reaches. Qed.

Lemma m_Chr_head (cls : N -> bool) p s k res :
  m (Chr cls) p s k = Some res ->
  exists c s', s = c :: s' /\ cls c = true.
Proof.
  simpl. destruct s as [|c s']; [discriminate|].
  destruct (cls c) eqn:E; [|discriminate]. intros _. now exists c, s'.
Qed.

(** A literal cannot match where its first character is not. *)
Lemma m_lit_seq_head (eqc : N -> N -> bool) (c : N) (tl : jsstring) p s k res :
  m (lit_seq eqc c tl) p s k = Some res ->
  exists d s', s = d :: s' /\ eqc c d = true.
Proof.
  destruct tl as [|e tl]; simpl.
  - apply (m_Chr_head (eqc c) p s k res).
  - destruct s as [|d s']; [discriminate|].
    destruct (eqc c d) eqn:E; [|discriminate]. intros _. now exists d, s'.
Qed.

Lemma exec_Some (r : regex) p s n :
  exec r p s = Some n ->
  exists res, m r p s (fun _ s' => Some s') = Some res.
Proof.
  unfold exec. destruct (m r p s _) as [res|]; [|discriminate].
  intros _. now exists res.
Qed.

Lemma exec_None (r : regex) p s :
  m r p s (fun _ s' => Some s') = None -> exec r p s = None.
Proof. unfold exec. now intros ->. Qed.

(** Where the pattern matches nowhere, [replace] returns its input. *)
Lemma replace_go_no_match (r : regex) (f : jsstring -> jsstring) :
  forall s p,
    (forall p' s', suffix_of s' s -> exec r p' s' = None) ->
    replace_go r f p O s = s.
Proof.
  induction s as [|c t IH]; intros p H; simpl.
  - now rewrite (H p [] (suffix_of_refl _)).
  - rewrite (H p (c :: t) (suffix_of_refl _)). f_equal.
    apply IH. intros p' s' Hs. apply H. now apply suffix_of_cons.
Qed.

Lemma remove_no_match (r : regex) (s : jsstring) :
  (forall p' s', suffix_of s' s -> exec r p' s' = None) ->
  remove r s = s.
Proof. apply replace_go_no_match. Qed.

(** With a constant replacement, [replace] brings in no character that is
    not in its input or in the replacement. *)
Lemma replace_go_In (r : regex) (rep : jsstring) (x : N) :
  forall s p skip,
    In x (replace_go r (fun _ => rep) p skip s) -> In x s \/ In x rep.
Proof.
  induction s as [|c t IH]; intros p skip H.
  - destruct skip; simpl in H; [|contradiction].
    destruct (exec r p []); [|contradiction].
    rewrite app_nil_r in H. now right.
  - destruct skip as [|skip]; simpl in H.
    + destruct (exec r p (c :: t)) as [[|n]|].
      * apply in_app_or in H as [H|[H|H]]; [now right | left; now left |].
        apply IH in H as [H|H]; [left; now right | now right].
      * apply in_app_or in H as [H|H]; [now right|].
        apply IH in H as [H|H]; [left; now right | now right].
      * destruct H as [H|H]; [left; now left|].
        apply IH in H as [H|H]; [left; now right | now right].
    + apply IH in H as [H|H]; [left; now right | now right].
Qed.

Lemma exec_Chr (cls : N -> bool) p (c : N) (t : jsstring) :
  exec (Chr cls) p (c :: t) = if cls c then Some 1%nat else None.
Proof.
  unfold exec. cbn [m]. destruct (cls c); [|reflexivity].
  f_equal. cbn [List.length]. lia.
Qed.

(** For a pattern of one character class, [replace] maps each character. *)
Lemma replace_go_Chr (cls : N -> bool) (f : jsstring -> jsstring) :
  forall s p,
    replace_go (Chr cls) f p O s =
    flat_map (fun c => if cls c then f [c] else [c]) s.
Proof.
  induction s as [|c t IH]; intros p.
  - reflexivity.
  - cbn [replace_go flat_map]. rewrite exec_Chr.
    destruct (cls c); simpl; now rewrite IH.
Qed.

(** ** [trim] *)

Lemma trimStart_suffix (s : jsstring) : suffix_of (trimStart s) s.
Proof.
  induction s as [|c t IH]; simpl.
  - apply suffix_of_refl.
  - destruct (is_space c); [now apply suffix_of_cons | apply suffix_of_refl].
Qed.

Lemma trim_In (s : jsstring) (x : N) : In x (trim s) -> In x s.
Proof.
  unfold trim. intros H. apply in_rev in H.
  apply (suffix_of_In _ _ _ (trimStart_suffix _)) in H.
  apply in_rev in H.
  now apply (suffix_of_In _ _ _ (trimStart_suffix _)) in H.
Qed.

Lemma trimStart_head_ok (s : jsstring) : head_ok s = true -> trimStart s = s.
Proof.
  destruct s as [|c t]; simpl; [reflexivity|].
  now destruct (is_space c).
Qed.

Lemma trim_fixed (s : jsstring) :
  head_ok s = true -> head_ok (rev s) = true -> trim s = s.
Proof.
  intros H1 H2. unfold trim.
  rewrite (trimStart_head_ok s H1), (trimStart_head_ok _ H2).
  apply rev_involutive.
Qed.

(* ================================================================== *)
(** * The sanitizer *)

Lemma is_special_cases (c : N) :
  is_special c = true -> c = 60 \/ c = 62 \/ c = 34 \/ c = 39 \/ c = 38.
Proof.
  unfold is_special. rewrite !orb_true_iff, !N.eqb_eq. tauto.
Qed.

Lemma not_special_not_raw (c : N) : is_special c = false -> is_raw c = false.
Proof.
  unfold is_special, is_raw, is_lt, is_gt, is_quote.
  destruct (c =? 60), (c =? 62), (c =? 34), (c =? 39); simpl; congruence.
Qed.

Lemma escape_special_flat_map (t : jsstring) :
  escape_special t =
  flat_map (fun c => if is_special c then escapeMap [c] else [c]) t.
Proof. apply replace_go_Chr. Qed.

(** After the escaping no raw bracket or quote is left. *)
Lemma escape_special_no_raw (t : jsstring) (x : N) :
  In x (escape_special t) -> is_raw x = false.
Proof.
  rewrite escape_special_flat_map, in_flat_map. intros (c & _ & H).
  destruct (is_special c) eqn:E.
  - apply is_special_cases in E.
    destruct E as [-> | [-> | [-> | [-> | ->]]]]; simpl in H;
      repeat (destruct H as [<- | H]; [reflexivity|]); contradiction.
  - destruct H as [<- | []]. now apply not_special_not_raw.
Qed.

Lemma collapse_spaces_In (u : jsstring) (x : N) :
  In x (collapse_spaces u) -> In x u \/ x = 32.
Proof.
  unfold collapse_spaces. intros H. apply trim_In in H.
  apply replace_go_In in H as [H | [<- | []]]; [now left | now right].
Qed.

Lemma remove_control_filter (v : jsstring) :
  remove_control v = filter (fun c => negb (is_control c)) v.
Proof.
  unfold remove_control, remove, replace_all, re_control.
  rewrite replace_go_Chr.
  induction v as [|c v IH]; simpl; [reflexivity|].
  rewrite IH. now destruct (is_control c).
Qed.

Lemma sanitize_string_clean (s : jsstring) (x : N) :
  In x (sanitize_string s) -> clean_unit x = true.
Proof.
  unfold sanitize_string. rewrite remove_control_filter, filter_In.
  intros [H Hc]. unfold clean_unit. rewrite Hc, andb_true_r.
  apply collapse_spaces_In in H as [H | ->]; [|reflexivity].
  now rewrite (escape_special_no_raw _ _ H).
Qed.

(** C3 (as the code has it): on the input [a&b<c>] the sanitizer removes
    [<c>] as a tag before it escapes, and returns [a&amp;b]. *)
Theorem sanitizeText_example :
  sanitizeText (VStr (js "a&b<c>")) = js "a&amp;b".
Proof. vm_compute. reflexivity. Qed.

(** C3 (as the specification states it): the result on [a&b<c>] is not
    [a&amp;b&lt;c&gt;]. *)
Lemma sanitizeText_example_not_escaped :
  sanitizeText (VStr (js "a&b<c>")) <> js "a&amp;b&lt;c&gt;".
Proof. vm_compute. discriminate. Qed.


(** ** Where the sanitizer changes nothing *)

Lemma eq_ci_lt (d : N) : eq_ci 60 d = true -> d = 60.
Proof.
  unfold eq_ci, canonicalize, in_range. simpl.
  destruct (97 <=? d) eqn:E1; destruct (d <=? 122) eqn:E2; simpl;
    rewrite N.eqb_eq; try (intros; assumption).
  apply N.leb_le in E1. lia.
Qed.

Lemma lit_i_lt (tag : string) :
  lit_i ("<" ++ tag)%string = lit_seq eq_ci 60 (js tag).
Proof. reflexivity. Qed.

(** A pattern that starts with [<] matches nothing in a text without it. *)
Lemma remove_lt_pattern (tag : string) (r : regex) (s : jsstring) :
  (forall x, In x s -> is_lt x = false) ->
  remove (Seq (lit_i ("<" ++ tag)%string) r) s = s.
Proof.
  intros H. apply remove_no_match. intros p' s' Hs.
  apply exec_None.
  destruct (m _ p' s' _) as [res|] eqn:E; [exfalso | reflexivity].
  cbn [m] in E. rewrite lit_i_lt in E.
  apply m_lit_seq_head in E as (d & t & -> & E).
  apply eq_ci_lt in E. subst d.
  assert (In 60 s) as Hin by (eapply suffix_of_In; [eassumption | now left]).
  now apply H in Hin.
Qed.

Lemma remove_re_tag (s : jsstring) :
  (forall x, In x s -> is_lt x = false) -> remove re_tag s = s.
Proof.
  intros H. apply remove_no_match. intros p' s' Hs.
  apply exec_None.
  destruct (m _ p' s' _) as [res|] eqn:E; [exfalso | reflexivity].
  unfold re_tag in E. cbn [m] in E.
  destruct s' as [|d t]; [discriminate|].
  destruct (is_lt d) eqn:Ed; [|discriminate].
  assert (In d s) as Hin by (eapply suffix_of_In; [eassumption | now left]).
  apply H in Hin. congruence.
Qed.

(** The pattern of the event handlers needs a quote. *)
Lemma remove_re_handler (s : jsstring) :
  (forall x, In x s -> is_quote x = false) -> remove re_handler s = s.
Proof.
  intros H. apply remove_no_match. intros p' s' Hs.
  apply exec_None.
  destruct (m _ p' s' _) as [res|] eqn:E; [exfalso | reflexivity].
  unfold re_handler in E.
  do 5 (apply m_Seq_reaches in E as (? & ? & ?Hs & E)).
  cbn [m] in E.
  match type of E with
  | match ?l with _ => _ end = _ => destruct l as [|d t]; [discriminate|]
  end.
  destruct (is_quote d) eqn:Ed; [|discriminate].
  assert (In d s) as Hin.
  { repeat (eapply suffix_of_In; [eassumption|]). now left. }
  apply H in Hin. congruence.
Qed.

(** A literal matches the text it spells. *)
Lemma m_lit_seq_strip (tl : jsstring) :
  forall c p s k res,
    m (lit_seq eq_ci c tl) p s k = Some res ->
    exists p' rest, strip_ci (c :: tl) s = Some rest /\ k p' rest = Some res.
Proof.
  induction tl as [|d tl IH]; intros c p s k res H; cbn [lit_seq m] in H;
    (destruct s as [|x s]; [discriminate|]);
    cbn [strip_ci]; destruct (eq_ci c x); try discriminate.
  - now exists (Some x), s.
  - now apply IH in H.
Qed.

Lemma m_lit_i_strip (name : string) p s k res :
  m (lit_i name) p s k = Some res ->
  exists p' rest, strip_ci (js name) s = Some rest /\ k p' rest = Some res.
Proof.
  unfold lit_i. destruct (js name) as [|c tl].
  - cbn [m strip_ci].
    destruct s as [|x s]; intros H; [now exists p, [] | now exists p, (x :: s)].
  - apply m_lit_seq_strip.
Qed.

(** The iterations of a class match a run of its characters. *)
Lemma m_Star_Chr (cls : N -> bool) p s k res :
  m (Star (Chr cls)) p s k = Some res ->
  exists pre rest p',
    s = pre ++ rest /\ forallb cls pre = true /\ k p' rest = Some res.
Proof.
  cbn [m]. generalize (List.length s) as n. intros n. revert p s.
  induction n as [|n IH]; intros p s H; cbn [star_loop m] in H.
  - now exists [], s, p.
  - destruct s as [|c s]; [now exists [], [], p|].
    destruct (cls c) eqn:Ec; [|now exists [], (c :: s), p].
    destruct (List.length s <? List.length (c :: s))%nat;
      [|now exists [], (c :: s), p].
    destruct (star_loop _ k n (Some c) s) as [res'|] eqn:E.
    + injection H as ->.
      apply IH in E as (pre & rest & p' & -> & Hpre & E).
      exists (c :: pre), rest, p'. cbn. now rewrite Ec, Hpre.
    + now exists [], (c :: s), p.
Qed.

Lemma trimStart_app_spaces (pre rest : jsstring) :
  forallb is_space pre = true -> trimStart (pre ++ rest) = trimStart rest.
Proof.
  induction pre as [|c pre IH]; [reflexivity|].
  cbn. intros H. apply andb_true_iff in H as [-> H]. auto.
Qed.

(** Where the pattern of a scheme matches, the scheme is. *)
Lemma exec_re_scheme (name : string) p s n :
  exec (re_scheme name) p s = Some n -> scheme_here name s = true.
Proof.
  intros H. apply exec_Some in H as [res H].
  unfold re_scheme in H. cbn [m] in H.
  apply m_lit_i_strip in H as (p1 & rest & Hstrip & H).
  change (m (Star (Chr is_space)) p1 rest
            (fun p' s' => m (Chr is_colon) p' s' (fun _ s'' => Some s''))
          = Some res) in H.
  apply m_Star_Chr in H as (pre & rest' & p2 & -> & Hpre & H).
  apply m_Chr_head in H as (c & t & -> & Hc).
  unfold scheme_here. rewrite Hstrip, trimStart_app_spaces by assumption.
  cbn [trimStart]. unfold is_colon in Hc. apply N.eqb_eq in Hc. now subst c.
Qed.

Lemma has_scheme_suffix (name : string) (s' s : jsstring) :
  suffix_of s' s -> scheme_here name s' = true -> has_scheme name s = true.
Proof.
  intros [pre ->] H. induction pre as [|c pre IH]; cbn [app has_scheme].
  - destruct s'; cbn [has_scheme]; now rewrite H.
  - rewrite IH. apply orb_true_r.
Qed.

(** The pattern of a scheme changes nothing in a text without it. *)
Lemma remove_re_scheme (name : string) (s : jsstring) :
  has_scheme name s = false -> remove (re_scheme name) s = s.
Proof.
  intros H. apply remove_no_match. intros p' s' Hs.
  destruct (exec (re_scheme name) p' s') as [n|] eqn:E; [|reflexivity].
  apply exec_re_scheme in E.
  rewrite (has_scheme_suffix name s' s Hs E) in H. discriminate.
Qed.

Lemma strip_markup_fixed (s : jsstring) :
  (forall x, In x s -> is_lt x = false) ->
  (forall x, In x s -> is_quote x = false) ->
  has_scheme "javascript" s = false ->
  has_scheme "data" s = false ->
  has_scheme "vbscript" s = false ->
  strip_markup s = s.
Proof.
  intros Hlt Hq Hj Hd Hv. unfold strip_markup, re_block, re_void. cbv zeta.
  rewrite !(remove_lt_pattern _ _ s Hlt).
  rewrite (remove_re_handler s Hq).
  rewrite (remove_re_scheme _ s Hj), (remove_re_scheme _ s Hd),
    (remove_re_scheme _ s Hv).
  now apply remove_re_tag.
Qed.

Lemma escape_special_fixed (s : jsstring) :
  (forall x, In x s -> is_special x = false) -> escape_special s = s.
Proof.
  rewrite escape_special_flat_map.
  induction s as [|c t IH]; intros H; simpl; [reflexivity|].
  rewrite (H c) by now left. simpl. f_equal.
  apply IH. intros x Hx. apply H. now right.
Qed.

Lemma exec_re_spaces_other p (c : N) (t : jsstring) :
  is_space c = false -> exec re_spaces p (c :: t) = None.
Proof.
  intros H. unfold exec, re_spaces, Plus. cbn [m]. now rewrite H.
Qed.

Lemma exec_re_spaces_single p (c : N) (t : jsstring) :
  is_space c = true -> head_ok t = true ->
  exec re_spaces p (c :: t) = Some 1%nat.
Proof.
  intros H Ht. unfold exec, re_spaces, Plus. cbn [m]. rewrite H.
  destruct t as [|d t]; cbn [List.length star_loop m].
  - reflexivity.
  - simpl in Ht. apply negb_true_iff in Ht. rewrite Ht.
    f_equal. cbn [List.length]. lia.
Qed.

(** A space that stands alone is replaced by itself. *)
Lemma replace_spaces_fixed :
  forall s p,
    spaces_single s = true ->
    replace_go re_spaces (fun _ => js " ") p O s = s.
Proof.
  induction s as [|c t IH]; intros p H.
  - reflexivity.
  - simpl in H. apply andb_true_iff in H as [Hc Ht].
    cbn [replace_go]. destruct (is_space c) eqn:E.
    + apply andb_true_iff in Hc as [Hc Hh]. apply N.eqb_eq in Hc. subst c.
      rewrite exec_re_spaces_single by assumption.
      simpl. f_equal. now apply IH.
    + rewrite exec_re_spaces_other by assumption.
      f_equal. now apply IH.
Qed.

Lemma collapse_spaces_fixed (s : jsstring) :
  single_spaced s = true -> collapse_spaces s = s.
Proof.
  unfold single_spaced, collapse_spaces, replace_all.
  rewrite !andb_true_iff. intros [[H1 H2] H3].
  rewrite replace_spaces_fixed by assumption. now apply trim_fixed.
Qed.

Lemma remove_control_fixed (s : jsstring) :
  (forall x, In x s -> is_control x = false) -> remove_control s = s.
Proof.
  rewrite remove_control_filter.
  induction s as [|c t IH]; intros H; simpl; [reflexivity|].
  rewrite (H c) by now left. simpl. f_equal.
  apply IH. intros x Hx. apply H. now right.
Qed.

(** A plain text without raw or control characters is a fixed point. *)
Lemma sanitize_string_fixed (t : jsstring) :
  plain t = true ->
  (forall x, In x t -> clean_unit x = true) ->
  sanitize_string t = t.
Proof.
  unfold plain. rewrite !andb_true_iff, !negb_true_iff, forallb_forall.
  intros [[[[Hp Hj] Hd] Hv] Hs] Hclean.
  assert (forall x, In x t -> is_raw x = false /\ is_control x = false /\
                               is_amp x = false) as H.
  { intros x Hx. specialize (Hp x Hx). specialize (Hclean x Hx).
    unfold clean_unit in Hclean. apply andb_true_iff in Hclean as [Hr Hk].
    rewrite negb_true_iff in *. auto. }
  assert (head_ok t = true /\ head_ok (rev t) = true) as [Hh Hr].
  { unfold single_spaced in Hs. rewrite !andb_true_iff in Hs. tauto. }
  unfold sanitize_string.
  rewrite (trim_fixed t Hh Hr).
  rewrite strip_markup_fixed; try assumption.
  - rewrite escape_special_fixed.
    + rewrite (collapse_spaces_fixed t Hs).
      apply remove_control_fixed. intros x Hx. now apply H.
    + intros x Hx. destruct (H x Hx) as (Hraw & _ & Ha).
      unfold is_raw, is_lt, is_gt, is_quote, is_amp in *.
      unfold is_special.
      destruct (x =? 60), (x =? 62), (x =? 34), (x =? 39), (x =? 38);
        simpl in *; congruence.
  - intros x Hx. destruct (H x Hx) as (Hraw & _).
    unfold is_raw in Hraw. now destruct (is_lt x).
  - intros x Hx. destruct (H x Hx) as (Hraw & _).
    unfold is_raw in Hraw.
    destruct (is_lt x), (is_gt x), (is_quote x); simpl in *; congruence.
Qed.

(** C2 (as the specification states it): sanitizing twice differs from
    sanitizing once on [a&b], whose ampersand is escaped again. *)
Lemma sanitizeText_not_idempotent :
  sanitizeText (VStr (sanitizeText (VStr (js "a&b")))) <>
  sanitizeText (VStr (js "a&b")).
Proof. vm_compute. discriminate. Qed.

(** The other ways in which a second pass changes the text: a control
    character is removed only at the end, after the schemes were looked
    for and after the white space was collapsed. *)
Example sanitizeText_twice_scheme :
  sanitizeText (VStr (js "java" ++ [1] ++ js "script:x")) = js "javascript:x"
  /\ sanitizeText (VStr (js "javascript:x")) = js "x".
Proof. split; vm_compute; reflexivity. Qed.

Example sanitizeText_twice_space :
  sanitizeText (VStr (js "a " ++ [1])) = js "a "
  /\ sanitizeText (VStr (js "a ")) = js "a".
Proof. split; vm_compute; reflexivity. Qed.

(** C2 (as the code has it): a second pass changes nothing when the first
    result is plain: without ampersand, without one of the schemes
    javascript, data and vbscript before a colon, and single-spaced. *)
Theorem sanitizeText_idempotent_plain (s : jsstring) :
  plain (sanitizeText (VStr s)) = true ->
  sanitizeText (VStr (sanitizeText (VStr s))) = sanitizeText (VStr s).
Proof.
  intros H. simpl in *. apply sanitize_string_fixed; [assumption|].
  intros x. apply sanitize_string_clean.
Qed.

Lemma sanitizeText_idempotent_plain_witness :
  plain (sanitizeText (VStr (js "  <b>Buy</b>   milk at 10:30 "))) = true /\
  sanitizeText (VStr (sanitizeText (VStr (js "  <b>Buy</b>   milk at 10:30 ")))) =
  sanitizeText (VStr (js "  <b>Buy</b>   milk at 10:30 ")).
Proof.
  split.
  - vm_compute. reflexivity.
  - apply (sanitizeText_idempotent_plain (js "  <b>Buy</b>   milk at 10:30 ")).
    vm_compute. reflexivity.
Defined.

(** ** The escaping and the steps after it *)

(** The escaping writes the entity of each of the five characters and
    leaves the others. *)
Lemma escape_special_entity (t : jsstring) :
  escape_special t = flat_map entity t.
Proof.
  rewrite escape_special_flat_map. apply flat_map_ext. intros c.
  unfold is_special, entity.
  destruct (c =? 60) eqn:E1; [apply N.eqb_eq in E1; now subst|].
  destruct (c =? 62) eqn:E2; [apply N.eqb_eq in E2; now subst|].
  destruct (c =? 34) eqn:E3; [apply N.eqb_eq in E3; now subst|].
  destruct (c =? 39) eqn:E4; [apply N.eqb_eq in E4; now subst|].
  destruct (c =? 38) eqn:E5; [apply N.eqb_eq in E5; now subst|].
  reflexivity.
Qed.

(** An entity is never empty; white space and control characters stand
    for themselves, and the entity of another character holds neither. *)
Lemma entity_cases (c : N) :
  entity c = [c] \/
  (is_special c = true /\
   (entity c = js "&lt;" \/ entity c = js "&gt;" \/ entity c = js "&quot;" \/
    entity c = js "&#x27;" \/ entity c = js "&amp;")).
Proof.
  unfold entity, is_special.
  destruct (c =? 60); [right; split; [reflexivity | tauto]|].
  destruct (c =? 62); [right; split; [reflexivity | tauto]|].
  destruct (c =? 34); [right; split; [reflexivity | tauto]|].
  destruct (c =? 39); [right; split; [reflexivity | tauto]|].
  destruct (c =? 38); [right; split; [reflexivity | tauto]|].
  now left.
Qed.

Lemma special_not_space (c : N) :
  is_special c = true -> is_space c = false /\ is_control c = false.
Proof.
  intros H. apply is_special_cases in H.
  destruct H as [-> | [-> | [-> | [-> | ->]]]]; split; reflexivity.
Qed.

Lemma entity_space (c : N) : is_space c = true -> entity c = [c].
Proof.
  intros H. destruct (entity_cases c) as [E | [Hs _]]; [assumption|].
  apply special_not_space in Hs as [Hs _]. congruence.
Qed.

Lemma entity_control (c : N) : is_control c = true -> entity c = [c].
Proof.
  intros H. destruct (entity_cases c) as [E | [Hs _]]; [assumption|].
  apply special_not_space in Hs as [_ Hs]. congruence.
Qed.

Lemma entity_no_space (c : N) :
  is_space c = false ->
  forallb (fun x => negb (is_space x)) (entity c) = true /\
  forallb (fun x => negb (is_space x)) (rev (entity c)) = true /\
  entity c <> [].
Proof.
  intros H. destruct (entity_cases c) as [-> | [_ E]].
  - cbn. rewrite H. repeat split. discriminate.
  - destruct E as [-> | [-> | [-> | [-> | ->]]]];
      repeat split; discriminate.
Qed.

Lemma entity_no_control (c : N) :
  is_control c = false ->
  filter (fun x => negb (is_control x)) (entity c) = entity c.
Proof.
  intros H. destruct (entity_cases c) as [-> | [_ E]].
  - cbn. now rewrite H.
  - destruct E as [-> | [-> | [-> | [-> | ->]]]]; reflexivity.
Qed.

(** ** The escaping goes through the later steps *)

Section Through.

(** [e] writes a character as a text: white space as itself, another
    character as a text without white space. *)
Variable e : N -> jsstring.
Hypothesis e_space : forall c, is_space c = true -> e c = [c].
Hypothesis e_other :
  forall c, is_space c = false ->
            forallb (fun x => negb (is_space x)) (e c) = true /\ e c <> [].

Lemma trimStart_flat_map (t : jsstring) :
  trimStart (flat_map e t) = flat_map e (trimStart t).
Proof.
  induction t as [|c t IH]; [reflexivity|].
  cbn [flat_map trimStart]. destruct (is_space c) eqn:Ec.
  - rewrite (e_space c Ec). cbn [app trimStart]. now rewrite Ec.
  - destruct (e_other c Ec) as [Hn Hne].
    destruct (e c) as [|h tl] eqn:Ee; [congruence|].
    cbn [forallb] in Hn. apply andb_true_iff in Hn as [Hh _].
    apply negb_true_iff in Hh. cbn [app trimStart]. rewrite Hh.
    cbn [flat_map]. now rewrite Ee.
Qed.

Lemma lead_flat_map (t : jsstring) : lead (flat_map e t) = lead t.
Proof.
  induction t as [|c t IH]; [reflexivity|].
  cbn [flat_map lead]. destruct (is_space c) eqn:Ec.
  - rewrite (e_space c Ec). cbn [app lead]. now rewrite Ec, IH.
  - destruct (e_other c Ec) as [Hn Hne].
    destruct (e c) as [|h tl]; [congruence|].
    cbn [forallb] in Hn. apply andb_true_iff in Hn as [Hh _].
    apply negb_true_iff in Hh. cbn [app lead]. now rewrite Hh.
Qed.

End Through.

Lemma length_trimStart (t : jsstring) :
  List.length t = (lead t + List.length (trimStart t))%nat.
Proof.
  induction t as [|c t IH]; [reflexivity|].
  cbn [lead trimStart]. destruct (is_space c); cbn [List.length]; lia.
Qed.

Lemma star_spaces (t : jsstring) :
  forall n p,
    (List.length t <= n)%nat ->
    star_loop (m (Chr is_space)) (fun _ s' => Some s') n p t =
    Some (trimStart t).
Proof.
  induction t as [|c t IH]; intros n p Hn.
  - destruct n; reflexivity.
  - destruct n as [|n]; cbn [List.length] in Hn; [lia|].
    cbn [star_loop m trimStart]. destruct (is_space c); [|reflexivity].
    assert ((List.length t <? List.length (c :: t))%nat = true) as ->
      by (apply Nat.ltb_lt; cbn [List.length]; lia).
    rewrite IH by lia. reflexivity.
Qed.

(** A match of the white-space pattern takes the whole run. *)
Lemma exec_re_spaces_run p (c : N) (t : jsstring) :
  is_space c = true -> exec re_spaces p (c :: t) = Some (S (lead t)).
Proof.
  intros H. unfold exec, re_spaces, Plus. cbn [m]. rewrite H.
  rewrite star_spaces by lia. f_equal. cbn [List.length].
  rewrite (length_trimStart t). lia.
Qed.

Section Collapse.

Variable e : N -> jsstring.
Hypothesis e_space : forall c, is_space c = true -> e c = [c].
Hypothesis e_other :
  forall c, is_space c = false ->
            forallb (fun x => negb (is_space x)) (e c) = true /\ e c <> [].

Lemma replace_spaces_word (w s : jsstring) :
  forallb (fun x => negb (is_space x)) w = true ->
  forall p, exists p',
    replace_go re_spaces (fun _ => js " ") p O (w ++ s) =
    w ++ replace_go re_spaces (fun _ => js " ") p' O s.
Proof.
  induction w as [|c w IH]; intros H p; [now exists p|].
  cbn [forallb] in H. apply andb_true_iff in H as [Hc Hw].
  apply negb_true_iff in Hc.
  cbn [app replace_go]. rewrite exec_re_spaces_other by assumption.
  destruct (IH Hw (Some c)) as [p' ->]. now exists p'.
Qed.

Lemma replace_spaces_flat_map (t : jsstring) :
  forall p p' skip,
    (skip <= lead t)%nat ->
    replace_go re_spaces (fun _ => js " ") p skip (flat_map e t) =
    flat_map e (replace_go re_spaces (fun _ => js " ") p' skip t).
Proof.
  induction t as [|c t IH]; intros p p' skip Hs.
  - cbn [lead] in Hs. assert (skip = O) as -> by lia. reflexivity.
  - cbn [lead] in Hs. destruct (is_space c) eqn:Ec.
    + cbn [flat_map]. rewrite (e_space c Ec). cbn [app].
      destruct skip as [|k]; cbn [replace_go].
      * rewrite !exec_re_spaces_run by assumption.
        rewrite (lead_flat_map e e_space e_other).
        rewrite flat_map_app.
        change (flat_map e (js " ")) with (e 32 ++ []).
        rewrite (e_space 32 eq_refl). cbn [firstn app].
        refine (f_equal (cons 32) _). apply IH. lia.
      * apply IH. lia.
    + assert (skip = O) as -> by lia.
      cbn [flat_map]. destruct (e_other c Ec) as [Hn _].
      destruct (replace_spaces_word (e c) (flat_map e t) Hn p) as [q ->].
      cbn [replace_go]. rewrite exec_re_spaces_other by assumption.
      cbn [flat_map]. f_equal. apply IH. lia.
Qed.

End Collapse.

Lemma flat_map_rev (e : N -> jsstring) (t : jsstring) :
  rev (flat_map e t) = flat_map (fun c => rev (e c)) (rev t).
Proof.
  induction t as [|c t IH]; [reflexivity|].
  cbn [flat_map rev]. rewrite rev_app_distr, IH, flat_map_app.
  cbn [flat_map]. now rewrite app_nil_r.
Qed.

Lemma entity_rev_space (c : N) : is_space c = true -> rev (entity c) = [c].
Proof. intros H. now rewrite (entity_space c H). Qed.

Lemma entity_rev_other (c : N) :
  is_space c = false ->
  forallb (fun x => negb (is_space x)) (rev (entity c)) = true /\
  rev (entity c) <> [].
Proof.
  intros H. destruct (entity_no_space c H) as (_ & H2 & H3).
  split; [assumption|]. intros E. apply H3.
  apply (f_equal (@rev N)) in E. now rewrite rev_involutive in E.
Qed.

Lemma entity_other (c : N) :
  is_space c = false ->
  forallb (fun x => negb (is_space x)) (entity c) = true /\ entity c <> [].
Proof. intros H. destruct (entity_no_space c H) as (H1 & _ & H3). now split. Qed.

Lemma trim_entity (t : jsstring) :
  trim (flat_map entity t) = flat_map entity (trim t).
Proof.
  unfold trim.
  rewrite (trimStart_flat_map entity entity_space entity_other).
  rewrite flat_map_rev.
  rewrite (trimStart_flat_map _ entity_rev_space entity_rev_other).
  rewrite flat_map_rev.
  apply flat_map_ext. intros c. apply rev_involutive.
Qed.

Lemma collapse_spaces_entity (t : jsstring) :
  collapse_spaces (flat_map entity t) = flat_map entity (collapse_spaces t).
Proof.
  unfold collapse_spaces, replace_all.
  rewrite (replace_spaces_flat_map entity entity_space entity_other t
             None None O) by lia.
  apply trim_entity.
Qed.

Lemma remove_control_entity (t : jsstring) :
  remove_control (flat_map entity t) = flat_map entity (remove_control t).
Proof.
  rewrite !remove_control_filter.
  induction t as [|c t IH]; [reflexivity|].
  cbn [flat_map filter]. rewrite filter_app, IH.
  destruct (is_control c) eqn:Ec; cbn [negb].
  - rewrite (entity_control c Ec). cbn [filter]. now rewrite Ec.
  - cbn [flat_map]. now rewrite (entity_no_control c Ec).
Qed.

(** The result is the surviving text, each of the five characters
    written as its entity. *)
Lemma sanitize_string_entities (s : jsstring) :
  sanitize_string s = flat_map entity (surviving s).
Proof.
  unfold sanitize_string, surviving. cbv zeta.
  rewrite escape_special_entity, collapse_spaces_entity.
  apply remove_control_entity.
Qed.

(** C10: whatever the input, the result of [sanitizeText] holds no raw
    [<], [>], double quote or single quote, and no control character of
    the ranges 00-08, 0B, 0C, 0E-1F and 7F; and the result on a string is
    the text that survives the removals with each [<], [>], double quote,
    ['] and [&] of it replaced by its entity. *)
Theorem sanitizeText_clean (input : value) (s : jsstring) :
  forallb clean_unit (sanitizeText input) = true /\
  sanitizeText (VStr s) = flat_map entity (surviving s).
Proof.
  split.
  - apply forallb_forall. intros x H.
    destruct input; simpl in H; try contradiction.
    now apply sanitize_string_clean in H.
  - cbn [sanitizeText]. apply sanitize_string_entities.
Qed.

(* ================================================================== *)
(** * The store *)

(** Runs the steps of a computation that are determined. *)
Ltac run_steps :=
  repeat (unfold getItem, bind, read, try_catch, ret, throw, showError,
            set_todos, set_unsavedChanges, setItem, reporting;
          cbv beta iota;
          cbn [todos autosaveChecked unsavedChanges storage shown
               falsy_item is_empty item_text]).

Section Store.

Variable setItem_refuses : jsstring -> bool.


(** A save with the toggle on, a text within the limit and no refusal
    writes the text and returns [true]. *)
Lemma saveToLocal_writes (st : state) :
  autosaveChecked st = true ->
  length_N (JSON.stringify (todos st)) <= SIZE_LIMIT ->
  setItem_refuses (JSON.stringify (todos st)) = false ->
  saveToLocal setItem_refuses st =
  Ret true (mkState (todos st) false true
                    (Some (JSON.stringify (todos st))) (shown st)).
Proof.
  destruct st as [l u a b sh]. unfold saveToLocal. run_steps.
  intros -> H Hr. apply N.ltb_ge in H. run_steps. rewrite H. run_steps.
  now rewrite Hr.
Qed.

(** C8: [saveToLocal] returns [true] and writes nothing when the toggle is
    off; when it is on, it returns [false] with a message when the text is
    longer than the limit, it writes and returns [true] otherwise, and it
    returns [false] with a message when the write is refused; it never
    throws. *)
Theorem saveToLocal_outcomes (st : state) :
  let data := JSON.stringify (todos st) in
  (autosaveChecked st = false -> saveToLocal setItem_refuses st = Ret true st) /\
  (autosaveChecked st = true -> SIZE_LIMIT < length_N data ->
   saveToLocal setItem_refuses st =
   Ret false (reporting "Data too large to save automatically." st)) /\
  (autosaveChecked st = true -> length_N data <= SIZE_LIMIT ->
   setItem_refuses data = false ->
   saveToLocal setItem_refuses st =
   Ret true (mkState (todos st) false true (Some data) (shown st))) /\
  (autosaveChecked st = true -> length_N data <= SIZE_LIMIT ->
   setItem_refuses data = true ->
   saveToLocal setItem_refuses st =
   Ret false (reporting "Failed to save data. Storage may be full." st)) /\
  (forall e st', saveToLocal setItem_refuses st <> Throw e st').
Proof.
  destruct st as [l u a b sh].
  unfold saveToLocal. run_steps. repeat split.
  - now intros ->.
  - intros -> H. apply N.ltb_lt in H. run_steps. now rewrite H.
  - intros -> H Hr. apply N.ltb_ge in H. run_steps. rewrite H. run_steps.
    now rewrite Hr.
  - intros -> H Hr. apply N.ltb_ge in H. run_steps. rewrite H. run_steps.
    now rewrite Hr.
  - intros e st'. destruct a; run_steps; [|discriminate].
    destruct (SIZE_LIMIT <? _); run_steps; [discriminate|].
    destruct (setItem_refuses _); discriminate.
Qed.

End Store.

Lemma saveToLocal_outcomes_witness :
  saveToLocal (fun _ => true) (mkState [mkTask (js "Buy milk") true]
                                       true true None []) =
  Ret false (mkState [mkTask (js "Buy milk") true] true true None
               ["Failed to save data. Storage may be full."%string]).
Proof.
  destruct (saveToLocal_outcomes (fun _ => true)
              (mkState [mkTask (js "Buy milk") true] true true None []))
    as (_ & _ & _ & H & _).
  apply H.
  - reflexivity.
  - vm_compute. discriminate.
  - reflexivity.
Defined.

Lemma jsstring_eqb_eq (a b : jsstring) : jsstring_eqb a b = true <-> a = b.
Proof.
  revert b. induction a as [|x a IH]; intros [|y b]; simpl;
    try (split; [discriminate | discriminate]); [tauto|].
  rewrite andb_true_iff, N.eqb_eq, IH.
  split; [intros [-> ->]; reflexivity | intros [= -> ->]; auto].
Qed.

Lemma sanitize_string_nil : sanitize_string [] = [].
Proof. vm_compute. reflexivity. Qed.

Lemma is_record_filter (item : value) :
  truthy item && typeof_object item = is_record item.
Proof. destruct item; simpl; try reflexivity; now rewrite andb_false_r. Qed.

Lemma coerce_record (item : value) :
  coerce item = mkTask (record_text item) (record_done item).
Proof.
  unfold coerce, record_text, record_done, or_else.
  destruct (truthy (get item "text")); [reflexivity|].
  simpl. now rewrite sanitize_string_nil.
Qed.

(** The chain of [filter], [map], [filter] and [slice] of the source
    selects the first valid records. *)
Lemma load_chain_valid_records (items : list value) :
  forall n,
    firstn n
      (filter (fun item => (0 <? List.length (text item))%nat)
         (map coerce
            (filter (fun item => truthy item && typeof_object item) items)))
    = valid_records items n.
Proof.
  induction items as [|item rest IH]; intros n.
  - now destruct n.
  - cbn [filter valid_records]. rewrite is_record_filter.
    destruct (is_record item); cbn [andb map filter].
    + rewrite coerce_record. cbn [text].
      destruct (record_text item) as [|c t] eqn:E; cbn [List.length is_empty negb].
      * cbn. rewrite IH. destruct n; [now destruct rest | reflexivity].
      * cbn [Nat.ltb Nat.leb]. destruct n; [reflexivity|].
        cbn [firstn]. now rewrite IH.
    + rewrite IH. destruct n; [now destruct rest | reflexivity].
Qed.

(** A blob that parses as an array is loaded as its first valid
    records. *)
Lemma loadFromLocal_array (st : state) (d : jsstring) (items : list value) :
  storage st = Some d -> d <> [] ->
  JSON.parse d = Some (VArr items) ->
  loadFromLocal st = Ret (valid_records items MAX_TASKS) st.
Proof.
  destruct st as [l u a b sh]. unfold loadFromLocal. run_steps.
  intros -> Hd H. destruct d as [|c d]; [congruence|].
  run_steps. rewrite H. run_steps.
  now rewrite load_chain_valid_records.
Qed.

(** C7 (as the code has it): [loadFromLocal] returns the empty list,
    silently, when there is no blob or the blob is the empty string; for a
    blob that [JSON.parse] rejects or that is not an array it shows the
    message and returns the empty list; for an array it returns the first
    1000 valid records, the items that are not objects being passed over;
    it never throws. *)
Theorem loadFromLocal_outcomes (st : state) :
  (storage st = None \/ storage st = Some [] ->
   loadFromLocal st = Ret [] st) /\
  (forall d, storage st = Some d -> d <> [] ->
     (JSON.parse d = None \/
      exists v, JSON.parse d = Some v /\ is_array v = false) ->
     loadFromLocal st =
     Ret [] (reporting "Failed to load saved data. Starting fresh." st)) /\
  (forall d items, storage st = Some d -> d <> [] ->
     JSON.parse d = Some (VArr items) ->
     loadFromLocal st = Ret (valid_records items MAX_TASKS) st) /\
  (forall e st', loadFromLocal st <> Throw e st').
Proof.
  destruct st as [l u a b sh].
  unfold loadFromLocal. run_steps. repeat split.
  - now intros [-> | ->].
  - intros d -> Hd H. destruct d as [|c d]; [congruence|].
    run_steps.
    destruct H as [-> | (v & -> & Hv)]; [reflexivity|].
    now destruct v.
  - intros d items -> Hd H. destruct d as [|c d]; [congruence|].
    run_steps. rewrite H. run_steps.
    now rewrite load_chain_valid_records.
  - intros e st'. destruct (falsy_item b); run_steps; [discriminate|].
    destruct (JSON.parse _) as [[]|]; discriminate.
Qed.

(** C7 (as the specification states it): the empty string is a blob that
    is present and that [JSON.parse] rejects, and the array of a number is
    not an array of records; in both cases [loadFromLocal] returns the
    empty list without showing a message. *)
Lemma loadFromLocal_silent :
  JSON.parse [] = None /\
  loadFromLocal (mkState [] false true (Some []) []) =
  Ret [] (mkState [] false true (Some []) []) /\
  JSON.parse (js "[1]") = Some (VArr [VNum 1 0]) /\
  loadFromLocal (mkState [] false true (Some (js "[1]")) []) =
  Ret [] (mkState [] false true (Some (js "[1]")) []).
Proof. repeat split; vm_compute; reflexivity. Qed.

Lemma loadFromLocal_outcomes_witness :
  loadFromLocal (mkState [] false true (Some (js "not-an-array")) []) =
  Ret [] (mkState [] false true (Some (js "not-an-array"))
                  ["Failed to load saved data. Starting fresh."%string]).
Proof.
  destruct (loadFromLocal_outcomes
              (mkState [] false true (Some (js "not-an-array")) []))
    as (_ & H & _).
  apply (H (js "not-an-array")).
  - reflexivity.
  - discriminate.
  - left. vm_compute. reflexivity.
Defined.

Section Validator.

Variable toLowerCase : jsstring -> jsstring.

Lemma isDuplicate_spec (sanitized : jsstring) (l : list task) :
  isDuplicate toLowerCase sanitized l = true <->
  exists todo, In todo l /\ toLowerCase (text todo) = toLowerCase sanitized.
Proof.
  unfold isDuplicate. rewrite existsb_exists.
  split; intros (todo & Hin & H); exists todo; split; try assumption;
    now apply jsstring_eqb_eq.
Qed.

(** C5: [validateTask] reports one error, the first that applies of:
    empty after sanitization, longer than 100, duplicate up to case, list
    already at 1000 tasks; and returns the sanitized text when none
    applies. *)
Theorem validateTask_priority (input : value) (l : list task) :
  let sanitized := sanitizeText input in
  let duplicate :=
    exists todo, In todo l /\
                 toLowerCase (text todo) = toLowerCase sanitized in
  (sanitized = [] ->
   validateTask toLowerCase input l =
   Invalid "Task cannot be empty or contain only special characters.") /\
  (sanitized <> [] -> (MAX_LENGTH < List.length sanitized)%nat ->
   validateTask toLowerCase input l = Invalid "Task must be 100 characters or less.") /\
  (sanitized <> [] -> (List.length sanitized <= MAX_LENGTH)%nat ->
   duplicate ->
   validateTask toLowerCase input l = Invalid "This task already exists!") /\
  (sanitized <> [] -> (List.length sanitized <= MAX_LENGTH)%nat ->
   ~ duplicate -> (MAX_TASKS <= List.length l)%nat ->
   validateTask toLowerCase input l = Invalid "Maximum 1000 tasks allowed.") /\
  (sanitized <> [] -> (List.length sanitized <= MAX_LENGTH)%nat ->
   ~ duplicate -> (List.length l < MAX_TASKS)%nat ->
   validateTask toLowerCase input l = Valid sanitized).
Proof.
  intros sanitized duplicate. unfold validateTask.
  fold sanitized.
  assert (sanitized <> [] ->
          is_empty sanitized || (List.length sanitized <? MIN_LENGTH)%nat
          = false) as Hne.
  { destruct sanitized; [congruence | reflexivity]. }
  pose proof (isDuplicate_spec sanitized l) as Hdup. fold duplicate in Hdup.
  repeat split.
  - now intros ->.
  - intros H1 H2. rewrite (Hne H1).
    apply Nat.ltb_lt in H2. now rewrite H2.
  - intros H1 H2 H3. rewrite (Hne H1).
    apply Nat.ltb_ge in H2. rewrite H2.
    apply Hdup in H3. now rewrite H3.
  - intros H1 H2 H3 H4. rewrite (Hne H1).
    apply Nat.ltb_ge in H2. rewrite H2.
    destruct (isDuplicate _ _ _); [now elim H3; apply Hdup|].
    apply Nat.leb_le in H4. now rewrite H4.
  - intros H1 H2 H3 H4. rewrite (Hne H1).
    apply Nat.ltb_ge in H2. rewrite H2.
    destruct (isDuplicate _ _ _); [now elim H3; apply Hdup|].
    apply Nat.leb_gt in H4. now rewrite H4.
Qed.

End Validator.

Lemma validateTask_priority_witness :
  validateTask (fun s => s) (VStr (js " buy <b>milk</b> "))
    [mkTask (js "buy milk") false] =
  Invalid "This task already exists!".
Proof.
  destruct (validateTask_priority (fun s => s) (VStr (js " buy <b>milk</b> "))
              [mkTask (js "buy milk") false]) as (_ & _ & H & _).
  apply H.
  - vm_compute. discriminate.
  - vm_compute. lia.
  - exists (mkTask (js "buy milk") false). split.
    + now left.
    + vm_compute. reflexivity.
Defined.

(* ================================================================== *)
(** * The importer *)

Section Importer.

Variable setItem_refuses : jsstring -> bool.

(** [saveToLocal] returns, and leaves the task list as it is. *)
Lemma saveToLocal_returns (st : state) :
  exists b st',
    saveToLocal setItem_refuses st = Ret b st' /\ todos st' = todos st.
Proof.
  destruct st as [l u a b sh]. unfold saveToLocal. run_steps.
  destruct a; run_steps; [|eauto].
  destruct (SIZE_LIMIT <? _); run_steps; [eauto|].
  destruct (setItem_refuses _); run_steps; eauto.
Qed.

Lemma import_lines_length (lines : list jsstring) :
  forall acc,
    (List.length (import_lines lines acc) <=
     List.length acc + List.length lines)%nat.
Proof.
  induction lines as [|line rest IH]; intros acc; cbn [import_lines].
  - cbn. lia.
  - cbv zeta. cbn [List.length].
    repeat match goal with
           | |- context [if ?b then _ else _] => destruct b
           end;
      try (specialize (IH acc); lia).
    specialize (IH (acc ++ [mkTask
      (sanitizeText (VStr (replace_first re_marker (fun _ => [])
                             (sanitizeText (VStr line)))))
      (startsWith (sanitizeText (VStr line)) (js "[x]") ||
       startsWith (sanitizeText (VStr line)) (js "[X]"))])).
    rewrite length_app in IH. cbn [List.length] in IH. lia.
Qed.

(** What [reader.onload] leaves: the list as it was, or the tasks read. *)
Lemma reader_onload_todos (text : jsstring) (st : state) :
  let lines := nonblank_lines text in
  let st' := state_of (reader_onload setItem_refuses text st) in
  ((MAX_TASKS < List.length lines)%nat ->
   st' = reporting "File contains too many tasks. Maximum 1000 allowed." st)
  /\
  ((List.length lines <= MAX_TASKS)%nat -> import_lines lines [] = [] ->
   st' = reporting "No valid tasks found in the file." st) /\
  ((List.length lines <= MAX_TASKS)%nat -> import_lines lines [] <> [] ->
   todos st' = import_lines lines []).
Proof.
  intros lines st'. subst st'. unfold reader_onload. fold lines.
  run_steps. repeat split.
  - intros H. apply Nat.ltb_lt in H. rewrite H. run_steps.
    now destruct st.
  - intros H E. apply Nat.ltb_ge in H. rewrite H, E. run_steps.
    now destruct st.
  - intros H E. apply Nat.ltb_ge in H. rewrite H.
    destruct (import_lines lines []) as [|t l] eqn:El; [congruence|].
    run_steps.
    match goal with
    | |- context [saveToLocal _ ?s] =>
        destruct (saveToLocal_returns s) as (b & s' & -> & Ht)
    end.
    run_steps. cbn [state_of todos]. exact Ht.
Qed.

(** The checks of [importTasks] return, leave the task list as it is, and
    start the read of accepted files only. *)
Lemma importTasks_returns (chosen : option file) (st : state) :
  exists started st',
    importTasks chosen st = Ret started st' /\ todos st' = todos st /\
    (started = true -> exists f, chosen = Some f /\ accepted f).
Proof.
  unfold importTasks. destruct chosen as [f|]; run_steps.
  - destruct (ALLOWED_FILE_SIZE <? size f) eqn:Es; run_steps.
    + eexists _, _. repeat split. discriminate.
    + destruct (negb _ && negb _) eqn:Ek; run_steps.
      * eexists _, _. repeat split. discriminate.
      * eexists _, _. repeat split. intros _. exists f. split; [reflexivity|].
        split; [now apply N.ltb_ge|].
        apply andb_false_iff in Ek as [Ek | Ek];
          apply negb_false_iff in Ek; auto.
  - eexists _, _. repeat split. discriminate.
Qed.

(** What an import leaves: the list as it was, or the whole list read
    from an accepted file of at most 1000 lines, when it is not empty. *)
Lemma import_todos (chosen : option file) (st : state) :
  let st' := state_of (import setItem_refuses chosen st) in
  todos st' = todos st \/
  exists f text,
    chosen = Some f /\ accepted f /\ content f = Some text /\
    (List.length (nonblank_lines text) <= MAX_TASKS)%nat /\
    import_lines (nonblank_lines text) [] <> [] /\
    todos st' = import_lines (nonblank_lines text) [].
Proof.
  cbv zeta. unfold import. run_steps.
  destruct (importTasks_returns chosen st) as (started & st1 & -> & E1 & Ha).
  destruct started; [|now left].
  destruct (Ha eq_refl) as (f & -> & Hf).
  destruct (content f) as [text|] eqn:Ec; [|now left].
  destruct (reader_onload_todos text st1) as (Hmany & Hnone & Hsome).
  destruct (Nat.ltb_spec MAX_TASKS (List.length (nonblank_lines text)))
    as [Hl|Hl].
  - left. now rewrite (Hmany Hl).
  - destruct (import_lines (nonblank_lines text) []) as [|t l] eqn:El.
    + left. now rewrite (Hnone Hl eq_refl).
    + right. exists f, text. rewrite <- El in *.
      repeat (split; [assumption || reflexivity || congruence|]).
      apply Hsome; [assumption | congruence].
Qed.

(** C6: an import that fails for one of the four reasons (file above
    1 MiB; neither a text type nor a .txt name; more than 1000 non-blank
    lines; no valid line) shows its message and leaves the session, and
    with it the task list, as it was; and no import replaces the list in
    part: the list after it is the list before it or the whole list read
    from the file. *)
Theorem import_failure_keeps_tasks (f : file) (st : state) :
  let st' := state_of (import setItem_refuses (Some f) st) in
  (ALLOWED_FILE_SIZE < size f ->
   todos st' = todos st /\
   st' = reporting "File too large. Maximum size is 1MB." st) /\
  (size f <= ALLOWED_FILE_SIZE ->
   includes (type f) (js "text") = false ->
   endsWith (name f) (js ".txt") = false ->
   todos st' = todos st /\
   st' = reporting "Please select a valid text file (.txt)." st) /\
  (forall text, accepted f -> content f = Some text ->
   (MAX_TASKS < List.length (nonblank_lines text))%nat ->
   todos st' = todos st /\
   st' = reporting "File contains too many tasks. Maximum 1000 allowed." st)
  /\
  (forall text, accepted f -> content f = Some text ->
   (List.length (nonblank_lines text) <= MAX_TASKS)%nat ->
   import_lines (nonblank_lines text) [] = [] ->
   todos st' = todos st /\
   st' = reporting "No valid tasks found in the file." st) /\
  (todos st' = todos st \/
   exists text, content f = Some text /\
                todos st' = import_lines (nonblank_lines text) []).
Proof.
  intros st'. subst st'.
  assert (forall text, accepted f -> content f = Some text ->
            import setItem_refuses (Some f) st =
            reader_onload setItem_refuses text st) as Hread.
  { intros text [Hsize Hkind] Hc. unfold import, importTasks. run_steps.
    apply N.ltb_ge in Hsize. rewrite Hsize.
    replace (negb (includes (type f) (js "text")) &&
             negb (endsWith (name f) (js ".txt"))) with false
      by (destruct Hkind as [-> | ->]; simpl;
          [reflexivity | now rewrite andb_false_r]).
    run_steps. now rewrite Hc. }
  split; [|split; [|split; [|split]]].
  - intros H. unfold import, importTasks. run_steps.
    apply N.ltb_lt in H. rewrite H. run_steps. now destruct st.
  - intros H Ht Hn. unfold import, importTasks. run_steps.
    apply N.ltb_ge in H. rewrite H, Ht, Hn. run_steps. now destruct st.
  - intros text Ha Hc Hl. rewrite (Hread text Ha Hc).
    destruct (reader_onload_todos text st) as (E & _).
    now rewrite (E Hl).
  - intros text Ha Hc Hl Hi. rewrite (Hread text Ha Hc).
    destruct (reader_onload_todos text st) as (_ & E & _).
    now rewrite (E Hl Hi).
  - destruct (import_todos (Some f) st)
      as [E | (f' & text & [= <-] & _ & Hc & _ & _ & E)];
      [now left | right; now exists text].
Qed.

Lemma import_two_lines :
  nonblank_lines two_lines = [js "[x] Buy milk"; js "[ ] Walk dog"] /\
  import_lines (nonblank_lines two_lines) [] =
  [mkTask (js "Buy milk") true; mkTask (js "Walk dog") false].
Proof. split; vm_compute; reflexivity. Qed.

(** C9: the import of the text of two lines, marked [x] and [ ], leaves
    exactly the tasks Buy milk, done, and Walk dog, not done, in this
    order. *)
Theorem import_example (f : file) (st : state) :
  accepted f -> content f = Some two_lines ->
  todos (state_of (import setItem_refuses (Some f) st)) =
  [mkTask (js "Buy milk") true; mkTask (js "Walk dog") false].
Proof.
  intros [Hsize Hkind] Hc. unfold import, importTasks. run_steps.
  apply N.ltb_ge in Hsize. rewrite Hsize.
  replace (negb (includes (type f) (js "text")) &&
           negb (endsWith (name f) (js ".txt"))) with false
    by (destruct Hkind as [-> | ->]; simpl;
        [reflexivity | now rewrite andb_false_r]).
  run_steps. rewrite Hc.
  destruct (reader_onload_todos two_lines st) as (_ & _ & E).
  destruct import_two_lines as [Hl Hi].
  rewrite E, Hi; [reflexivity | | congruence].
  rewrite Hl. cbn. unfold MAX_TASKS. lia.
Qed.

End Importer.

Lemma import_failure_keeps_tasks_witness :
  todos (state_of (import (fun _ => false)
           (Some (mkFile 20 (js "text/plain") (js "notes.txt")
                         (Some (js "<b></b>"))))
           (mkState [mkTask (js "Buy milk") true] false true None []))) =
  [mkTask (js "Buy milk") true].
Proof.
  destruct (import_failure_keeps_tasks (fun _ => false)
              (mkFile 20 (js "text/plain") (js "notes.txt")
                      (Some (js "<b></b>")))
              (mkState [mkTask (js "Buy milk") true] false true None []))
    as (_ & _ & _ & H & _).
  apply (H (js "<b></b>")).
  - split; [vm_compute; discriminate | left; vm_compute; reflexivity].
  - reflexivity.
  - vm_compute. lia.
  - vm_compute. reflexivity.
Defined.

Lemma import_example_witness :
  todos (state_of (import (fun _ => false)
           (Some (mkFile 26 (js "text/plain") (js "tasks.txt")
                         (Some two_lines)))
           (mkState [mkTask (js "Old") false] false false None []))) =
  [mkTask (js "Buy milk") true; mkTask (js "Walk dog") false].
Proof.
  apply (import_example (fun _ => false)).
  - split; [vm_compute; discriminate | left; vm_compute; reflexivity].
  - reflexivity.
Defined.

(* ================================================================== *)
(** * The task list across the operations *)

Lemma loadFromLocal_returns (st : state) :
  exists l st',
    loadFromLocal st = Ret l st' /\ (List.length l <= MAX_TASKS)%nat.
Proof.
  unfold loadFromLocal. run_steps.
  destruct (falsy_item (storage st)); run_steps.
  - eexists _, _. split; [reflexivity|]. cbn. lia.
  - destruct (JSON.parse _) as [[]|]; run_steps;
      eexists _, _; (split; [reflexivity|]); try (cbn; lia).
    apply firstn_le_length.
Qed.

Lemma splice1_incl (idx : nat) (l : list task) :
  forall t, In t (splice1 idx l) -> In t l.
Proof.
  revert idx. induction l as [|a l IH]; intros idx t H.
  - now destruct idx.
  - destruct idx as [|i]; cbn in H.
    + now right.
    + destruct H as [<- | H]; [now left | right; eauto].
Qed.

Lemma splice1_length (idx : nat) (l : list task) :
  (List.length (splice1 idx l) <= List.length l)%nat.
Proof.
  revert idx. induction l as [|a l IH]; intros [|i]; cbn; try lia.
  specialize (IH i). lia.
Qed.


Lemma toggle_at_texts (idx : nat) (l l' : list task) :
  toggle_at idx l = Some l' -> map text l' = map text l.
Proof.
  revert idx l'. induction l as [|a l IH]; intros idx l' H.
  - now destruct idx.
  - destruct idx as [|i]; cbn in H.
    + now injection H as <-.
    + destruct (toggle_at i l) as [l''|] eqn:E; [|discriminate].
      injection H as <-. cbn. f_equal. eauto.
Qed.

Section Invariant.

Variable toLowerCase : jsstring -> jsstring.
Variable setItem_refuses : jsstring -> bool.


(** What [addTask] leaves: the list as it was, or the list with one task
    more, whose text passed [validateTask]. *)
Lemma addTask_todos (input : jsstring) (st : state) :
  let st' := state_of (addTask toLowerCase setItem_refuses input st) in
  todos st' = todos st \/
  exists sanitized,
    validateTask toLowerCase (VStr input) (todos st) = Valid sanitized /\
    todos st' = todos st ++ [mkTask sanitized false].
Proof.
  cbv zeta. unfold addTask. run_steps.
  destruct (validateTask _ _ _) as [error | sanitized] eqn:E; run_steps.
  - now left.
  - match goal with
    | |- context [saveToLocal _ ?s] =>
        destruct (saveToLocal_returns setItem_refuses s)
          as (b & s' & -> & Ht)
    end.
    cbn [todos] in Ht. destruct b; run_steps; cbn [state_of todos].
    + right. now exists sanitized.
    + left. rewrite Ht. apply removelast_last.
Qed.



End Invariant.



(* ================================================================== *)
(** * The JSON text of a task list *)

Lemma hex_value_digit (d : N) : d < 16 -> JSON.hex_value (JSON.hex_digit d) = Some d.
Proof.
  intros H. unfold JSON.hex_value, JSON.hex_digit, in_range.
  destruct (d <? 10) eqn:E.
  - apply N.ltb_lt in E.
    replace (48 <=? 48 + d) with true by (symmetry; apply N.leb_le; lia).
    replace (48 + d <=? 57) with true by (symmetry; apply N.leb_le; lia).
    cbn [andb]. f_equal. lia.
  - apply N.ltb_ge in E.
    replace (87 + d <=? 57) with false by (symmetry; apply N.leb_gt; lia).
    rewrite andb_false_r.
    replace (97 <=? 87 + d) with true by (symmetry; apply N.leb_le; lia).
    replace (87 + d <=? 102) with true by (symmetry; apply N.leb_le; lia).
    cbn [andb]. f_equal. lia.
Qed.

Lemma mod16_lt (n : N) : n mod 16 < 16.
Proof. apply N.mod_lt. discriminate. Qed.

(** The four digits of an escape denote the code unit they were made
    from. *)
Lemma hex4_unicode_escape (c : N) :
  c < 65536 ->
  JSON.hex4 (JSON.hex_digit (c / 4096 mod 16)) (JSON.hex_digit (c / 256 mod 16))
       (JSON.hex_digit (c / 16 mod 16)) (JSON.hex_digit (c mod 16)) = Some c.
Proof.
  intros H. unfold JSON.hex4. rewrite !hex_value_digit by apply mod16_lt.
  f_equal.
  pose proof (N.div_mod c 16 ltac:(discriminate)) as E0.
  pose proof (N.div_mod (c / 16) 16 ltac:(discriminate)) as E1.
  pose proof (N.div_mod (c / 16 / 16) 16 ltac:(discriminate)) as E2.
  rewrite !N.Div0.div_div in E2. rewrite N.Div0.div_div in E1.
  change (16 * 16) with 256 in *. change (256 * 16) with 4096 in *.
  assert (c / 4096 < 16) as Hhi
    by (apply N.Div0.div_lt_upper_bound; exact H).
  rewrite (N.mod_small (c / 4096) 16 Hhi).
  lia.
Qed.

Lemma surrogate_small (c : N) :
  (c <? 32) || JSON.is_high_surrogate c || JSON.is_low_surrogate c = true ->
  c < 65536.
Proof.
  unfold JSON.is_high_surrogate, JSON.is_low_surrogate, in_range.
  rewrite !orb_true_iff, !andb_true_iff, N.ltb_lt, !N.leb_le. lia.
Qed.

(** A code unit written on its own is read back. *)
Lemma parse_chars_quote_unit (c : N) (rest : jsstring) :
  JSON.parse_chars (JSON.quote_unit c ++ rest) =
  JSON.cons_fst c (JSON.parse_chars rest).
Proof.
  unfold JSON.quote_unit.
  destruct (c =? 8) eqn:E8;
    [apply N.eqb_eq in E8; subst; reflexivity|].
  destruct (c =? 9) eqn:E9;
    [apply N.eqb_eq in E9; subst; reflexivity|].
  destruct (c =? 10) eqn:E10;
    [apply N.eqb_eq in E10; subst; reflexivity|].
  destruct (c =? 12) eqn:E12;
    [apply N.eqb_eq in E12; subst; reflexivity|].
  destruct (c =? 13) eqn:E13;
    [apply N.eqb_eq in E13; subst; reflexivity|].
  destruct (c =? JSON.quote_mark) eqn:Eq;
    [apply N.eqb_eq in Eq; subst; reflexivity|].
  destruct (c =? JSON.backslash) eqn:Eb;
    [apply N.eqb_eq in Eb; subst; reflexivity|].
  destruct (_ || _) eqn:Eu.
  - apply surrogate_small in Eu.
    unfold JSON.unicode_escape. cbn [app JSON.parse_chars].
    change (JSON.backslash =? JSON.quote_mark) with false.
    change (JSON.backslash =? JSON.backslash) with true.
    change (117 =? 117) with true. cbv iota.
    now rewrite hex4_unicode_escape.
  - cbn [app JSON.parse_chars]. rewrite Eq, Eb.
    apply orb_false_iff in Eu as [Eu _]. apply orb_false_iff in Eu as [Eu _].
    now rewrite Eu.
Qed.

(** The same for the two halves of a pair, which are written as they
    are. *)
Lemma parse_chars_raw (c : N) (rest : jsstring) :
  55296 <= c ->
  JSON.parse_chars (c :: rest) = JSON.cons_fst c (JSON.parse_chars rest).
Proof.
  intros H. cbn [JSON.parse_chars].
  replace (c =? JSON.quote_mark) with false
    by (symmetry; apply N.eqb_neq; unfold JSON.quote_mark; lia).
  replace (c =? JSON.backslash) with false
    by (symmetry; apply N.eqb_neq; unfold JSON.backslash; lia).
  replace (c <? 32) with false by (symmetry; apply N.ltb_ge; lia).
  reflexivity.
Qed.

(** The characters [QuoteJSONString] writes between the quotes are read
    back as the string. *)
Lemma parse_chars_quote_units (n : nat) :
  forall s rest,
    (List.length s <= n)%nat ->
    JSON.parse_chars (JSON.quote_units s ++ JSON.quote_mark :: rest) =
    Some (s, rest).
Proof.
  induction n as [|n IH]; intros s rest Hn.
  - destruct s; [reflexivity | cbn in Hn; lia].
  - destruct s as [|c s]; [reflexivity|].
    cbn [List.length] in Hn. cbn [JSON.quote_units].
    destruct (JSON.is_high_surrogate c) eqn:Eh.
    + destruct s as [|d s].
      * rewrite parse_chars_quote_unit. reflexivity.
      * destruct (JSON.is_low_surrogate d) eqn:El.
        -- cbn [app]. cbn [List.length] in Hn.
           unfold JSON.is_high_surrogate, JSON.is_low_surrogate, in_range in *.
           apply andb_true_iff in Eh as [Eh _], El as [El _].
           apply N.leb_le in Eh, El.
           rewrite !parse_chars_raw by lia.
           rewrite IH by lia. reflexivity.
        -- rewrite <- app_assoc, parse_chars_quote_unit.
           rewrite IH by lia. reflexivity.
    + rewrite <- app_assoc, parse_chars_quote_unit.
      rewrite IH by lia. reflexivity.
Qed.

Lemma parse_chars_quote (s rest : jsstring) :
  JSON.parse_chars (JSON.quote_units s ++ JSON.quote_mark :: rest) =
  Some (s, rest).
Proof. now apply (parse_chars_quote_units (List.length s)). Qed.

(** The text of a task, followed by anything, in one piece. *)
Lemma stringify_task_app (t : task) (rest : jsstring) :
  JSON.stringify_task t ++ rest =
  [123; 34; 116; 101; 120; 116; 34; 58; 34] ++
  JSON.quote_units (text t) ++
  [34; 44; 34; 100; 111; 110; 101; 34; 58] ++
  js (if done t then "true" else "false") ++ 125 :: rest.
Proof.
  unfold JSON.stringify_task, JSON.quote.
  repeat (rewrite <- ?app_assoc, <- ?app_comm_cons). reflexivity.
Qed.

(** The text of a task is parsed as its object. *)
Lemma parse_value_task (n : nat) (t : task) (rest : jsstring) :
  JSON.parse_value (S (S (S (S n)))) (JSON.stringify_task t ++ rest) =
  Some (task_value t, rest).
Proof.
  rewrite stringify_task_app.
  destruct t as [txt d]. cbn [text done].
  cbn -[JSON.quote_units js].
  rewrite parse_chars_quote.
  destruct d; cbn; reflexivity.
Qed.

Lemma join_comma_cons (x y : jsstring) (l : list jsstring) (rest : jsstring) :
  JSON.join_comma (x :: y :: l) ++ rest =
  x ++ 44 :: JSON.join_comma (y :: l) ++ rest.
Proof.
  cbn [JSON.join_comma]. rewrite <- !app_assoc. reflexivity.
Qed.

(** The elements of the array are parsed one after the other. *)
Lemma parse_elements_tasks (l : list task) :
  forall t n acc rest,
    JSON.parse_elements (List.length l + 5 + n) acc
      (JSON.join_comma (map JSON.stringify_task (t :: l)) ++ 93 :: rest) =
    Some (VArr (rev acc ++ map task_value (t :: l)), rest).
Proof.
  induction l as [|t' l IH]; intros t n acc rest.
  - cbn [List.length plus map JSON.join_comma JSON.parse_elements].
    rewrite (parse_value_task n t (93 :: rest)). reflexivity.
  - cbn [List.length plus map JSON.parse_elements].
    rewrite join_comma_cons.
    replace (List.length l + 5 + n)%nat
      with (S (S (S (S (List.length l + 1 + n))))) by lia.
    rewrite parse_value_task.
    cbn [JSON.expect JSON.eat JSON.skip_ws JSON.is_ws N.eqb Pos.eqb orb].
    replace (S (S (S (S (List.length l + 1 + n)))))
      with (List.length l + 5 + n)%nat by lia.
    change (JSON.stringify_task t' :: map JSON.stringify_task l)
      with (map JSON.stringify_task (t' :: l)).
    rewrite (IH t' n (task_value t :: acc) rest).
    cbn [rev map]. rewrite <- app_assoc. reflexivity.
Qed.

Lemma stringify_task_length (t : task) :
  (9 <= List.length (JSON.stringify_task t))%nat.
Proof.
  rewrite <- (app_nil_r (JSON.stringify_task t)), stringify_task_app.
  rewrite length_app. cbn [List.length]. lia.
Qed.

Lemma join_comma_length_ge (l : list task) :
  (List.length l <=
   List.length (JSON.join_comma (map JSON.stringify_task l)))%nat.
Proof.
  induction l as [|t l IH]; [cbn; lia|].
  destruct l as [|t' l].
  - cbn [map JSON.join_comma List.length].
    pose proof (stringify_task_length t). lia.
  - cbn [map JSON.join_comma] in *. rewrite !length_app.
    cbn [List.length] in *. pose proof (stringify_task_length t). lia.
Qed.

(** [JSON.parse] reads the text [JSON.stringify] writes for a task list as
    the array of its objects. *)
Lemma parse_stringify (l : list task) :
  JSON.parse (JSON.stringify l) = Some (VArr (map task_value l)).
Proof.
  unfold JSON.parse, JSON.stringify.
  destruct l as [|t l].
  - reflexivity.
  - set (body := JSON.join_comma (map JSON.stringify_task (t :: l))).
    pose proof (join_comma_length_ge (t :: l)) as Hlen. fold body in Hlen.
    cbn [List.length] in Hlen.
    change (js "[" ++ body ++ js "]") with (91 :: body ++ [93]).
    cbn [List.length]. rewrite length_app. cbn [List.length].
    remember (List.length body) as k eqn:Ek.
    replace (2 * S (k + 1) + 2)%nat
      with (S (List.length l + 5 + (2 * k - List.length l)))%nat by lia.
    cbn [JSON.parse_value JSON.skip_ws JSON.is_ws N.eqb Pos.eqb orb].
    assert (JSON.expect 93 (body ++ [93]) = None) as Hs.
    { subst body. unfold JSON.expect. destruct l as [|t' l].
      - cbn [map JSON.join_comma]. now rewrite stringify_task_app.
      - cbn [map]. now rewrite join_comma_cons, stringify_task_app. }
    rewrite Hs.
    subst body. rewrite parse_elements_tasks. reflexivity.
Qed.

(** ** The counter of the parser *)

Lemma skip_ws_length (s : jsstring) :
  (List.length (JSON.skip_ws s) <= List.length s)%nat.
Proof.
  induction s as [|c s IH]; cbn; [lia|].
  destruct (JSON.is_ws c); cbn; lia.
Qed.

Lemma eat_shorter (c : N) (s r : jsstring) :
  JSON.eat c s = Some r -> (List.length r < List.length s)%nat.
Proof.
  destruct s as [|x s]; cbn; [discriminate|].
  destruct (x =? c); [|discriminate]. intros [= <-]. lia.
Qed.

Lemma expect_shorter (c : N) (s r : jsstring) :
  JSON.expect c s = Some r -> (List.length r < List.length s)%nat.
Proof.
  unfold JSON.expect. intros H. apply eat_shorter in H.
  pose proof (skip_ws_length s). lia.
Qed.

Lemma parse_chars_shorter_le (n : nat) :
  forall s str r,
    (List.length s <= n)%nat ->
    JSON.parse_chars s = Some (str, r) ->
    (List.length r < List.length s)%nat.
Proof.
  induction n as [|n IH]; intros s str r Hn H;
    (destruct s as [|c s]; [discriminate|]); [cbn in Hn; lia|].
  cbn [List.length] in Hn. cbn [JSON.parse_chars] in H.
  destruct (c =? JSON.quote_mark); [injection H as _ <-; cbn; lia|].
  assert (forall u t, (List.length t <= List.length s)%nat ->
            JSON.cons_fst u (JSON.parse_chars t) = Some (str, r) ->
            (List.length r < List.length (c :: s))%nat) as Hrec.
  { intros u t Ht Hu. unfold JSON.cons_fst in Hu.
    destruct (JSON.parse_chars t) as [[str' r']|] eqn:E; [|discriminate].
    injection Hu as _ <-. apply IH in E; [cbn; lia | lia]. }
  destruct (c =? JSON.backslash).
  - destruct s as [|e s]; [discriminate|].
    destruct (e =? 117).
    + destruct s as [|h1 [|h2 [|h3 [|h4 s]]]]; try discriminate.
      destruct (JSON.hex4 h1 h2 h3 h4); [|discriminate].
      eapply Hrec; [|eassumption]. cbn. lia.
    + destruct (JSON.simple_escape e); [|discriminate].
      eapply Hrec; [|eassumption]. cbn. lia.
  - destruct (c <? 32); [discriminate|].
    eapply Hrec; [|eassumption]. lia.
Qed.

Lemma parse_chars_shorter (s str r : jsstring) :
  JSON.parse_chars s = Some (str, r) -> (List.length r < List.length s)%nat.
Proof. now apply (parse_chars_shorter_le (List.length s)). Qed.

Lemma digits_length (s : jsstring) :
  forall acc count v count' r,
    JSON.digits acc count s = (v, count', r) ->
    (List.length r + count' = List.length s + count)%nat /\
    (count <= count')%nat.
Proof.
  induction s as [|c s IH]; intros acc count v count' r H; cbn in H.
  - injection H as _ <- <-. split; [reflexivity | lia].
  - destruct (JSON.is_digit c).
    + apply IH in H. cbn. lia.
    + injection H as _ <- <-. split; [reflexivity | lia].
Qed.

Lemma parse_number_shorter (s : jsstring) (v : value) (r : jsstring) :
  JSON.parse_number s = Some (v, r) -> (List.length r < List.length s)%nat.
Proof.
  unfold JSON.parse_number.
  assert (exists neg s0, (match JSON.eat 45 s with
                          | Some t => (true, t)
                          | None => (false, s)
                          end) = (neg, s0) /\
                         (List.length s0 <= List.length s)%nat)
    as (neg & s0 & -> & Hs0).
  { destruct (JSON.eat 45 s) as [t|] eqn:E.
    - apply eat_shorter in E. exists true, t. split; [reflexivity | lia].
    - exists false, s. split; [reflexivity | lia]. }
  destruct (JSON.parse_int s0) as [[int s1]|] eqn:Ei; [|discriminate].
  assert (List.length s1 < List.length s0)%nat as H1.
  { unfold JSON.parse_int in Ei. destruct s0 as [|c s0]; [discriminate|].
    destruct (c =? 48); [injection Ei as _ <-; cbn; lia|].
    destruct (in_range 49 57 c) eqn:Ec; [|discriminate].
    destruct (JSON.digits 0 0 (c :: s0)) as [[v' n'] rest] eqn:Ed.
    injection Ei as _ <-.
    cbn [JSON.digits] in Ed.
    assert (JSON.is_digit c = true) as Hc.
    { unfold JSON.is_digit, in_range in *.
      apply andb_true_iff in Ec as [E1 E2].
      apply N.leb_le in E1. rewrite E2, andb_true_r.
      apply N.leb_le. lia. }
    rewrite Hc in Ed. apply digits_length in Ed. cbn in *. lia. }
  destruct (JSON.parse_frac int s1) as [[[mant places] s2]|] eqn:Ef;
    [|discriminate].
  assert (List.length s2 <= List.length s1)%nat as H2.
  { unfold JSON.parse_frac in Ef.
    destruct (JSON.eat 46 s1) as [s'|] eqn:E.
    - apply eat_shorter in E.
      destruct (JSON.digits int 0 s') as [[v' n'] rest] eqn:Ed.
      apply digits_length in Ed.
      destruct n'; [discriminate|]. injection Ef as _ _ <-. lia.
    - injection Ef as _ _ <-. lia. }
  destruct (JSON.parse_exp s2) as [[e s3]|] eqn:Ee; [|discriminate].
  assert (List.length s3 <= List.length s2)%nat as H3.
  { unfold JSON.parse_exp in Ee. destruct s2 as [|c s2].
    - injection Ee as _ <-. lia.
    - destruct ((c =? 101) || (c =? 69)).
      + destruct (JSON.parse_sign s2) as [neg' s1'] eqn:Es.
        assert (List.length s1' <= List.length s2)%nat as Hsign.
        { unfold JSON.parse_sign in Es.
          destruct (JSON.eat 45 s2) as [t|] eqn:E1.
          - apply eat_shorter in E1. injection Es as _ <-. lia.
          - destruct (JSON.eat 43 s2) as [t|] eqn:E2.
            + apply eat_shorter in E2. injection Es as _ <-. lia.
            + injection Es as _ <-. lia. }
        destruct (JSON.digits 0 0 s1') as [[v' n'] rest] eqn:Ed.
        apply digits_length in Ed.
        destruct n'; [discriminate|]. injection Ee as _ <-. cbn. lia.
      + injection Ee as _ <-. lia. }
  intros [= _ <-]. lia.
Qed.

Lemma startsWith_length (s pre : jsstring) :
  startsWith s pre = true -> (List.length pre <= List.length s)%nat.
Proof.
  revert s. induction pre as [|x pre IH]; intros s H; cbn; [lia|].
  destruct s as [|y s]; [discriminate|]. cbn in H.
  apply andb_true_iff in H as [_ H]. apply IH in H. cbn. lia.
Qed.

Lemma parse_word_shorter (w : string) (v v' : value) (c : N) (s r : jsstring) :
  JSON.parse_word w v s = Some (v', r) -> js w = c :: List.tl (js w) ->
  (List.length r < List.length s)%nat.
Proof.
  unfold JSON.parse_word. intros H Hw.
  destruct (startsWith s (js w)) eqn:E; [|discriminate].
  injection H as _ <-. apply startsWith_length in E.
  rewrite length_skipn. rewrite Hw in *. cbn [List.length] in *. lia.
Qed.

(** The parser consumes what it parses. *)
Lemma parse_shorter (n : nat) :
  (forall s v r, JSON.parse_value n s = Some (v, r) ->
                 (List.length r < List.length s)%nat) /\
  (forall acc s v r, JSON.parse_elements n acc s = Some (v, r) ->
                     (List.length r < List.length s)%nat) /\
  (forall acc s v r, JSON.parse_members n acc s = Some (v, r) ->
                     (List.length r < List.length s)%nat).
Proof.
  induction n as [|n (IHv & IHe & IHm)];
    [repeat split; intros; discriminate|].
  split; [|split].
  - intros s v r H. cbn [JSON.parse_value] in H.
    pose proof (skip_ws_length s) as Hs.
    destruct (JSON.skip_ws s) as [|c t]; [discriminate|].
    cbn [List.length] in Hs.
    destruct (c =? 91).
    { destruct (JSON.expect 93 t) as [r'|] eqn:E.
      - apply expect_shorter in E. injection H as _ <-. lia.
      - apply IHe in H. lia. }
    destruct (c =? 123).
    { destruct (JSON.expect 125 t) as [r'|] eqn:E.
      - apply expect_shorter in E. injection H as _ <-. lia.
      - apply IHm in H. lia. }
    destruct (c =? JSON.quote_mark).
    { destruct (JSON.parse_chars t) as [[str r']|] eqn:E; [|discriminate].
      apply parse_chars_shorter in E. injection H as _ <-. lia. }
    destruct (c =? 110).
    { apply (parse_word_shorter _ _ _ 110) in H; [cbn in H; lia | reflexivity]. }
    destruct (c =? 116).
    { apply (parse_word_shorter _ _ _ 116) in H; [cbn in H; lia | reflexivity]. }
    destruct (c =? 102).
    { apply (parse_word_shorter _ _ _ 102) in H; [cbn in H; lia | reflexivity]. }
    apply parse_number_shorter in H. cbn in H. lia.
  - intros acc s v r H. cbn [JSON.parse_elements] in H.
    destruct (JSON.parse_value n s) as [[v1 r1]|] eqn:E1; [|discriminate].
    apply IHv in E1.
    destruct (JSON.expect 44 r1) as [r2|] eqn:E2.
    + apply expect_shorter in E2. apply IHe in H. lia.
    + destruct (JSON.expect 93 r1) as [r2|] eqn:E3; [|discriminate].
      apply expect_shorter in E3. injection H as _ <-. lia.
  - intros acc s v r H. cbn [JSON.parse_members] in H.
    destruct (JSON.expect JSON.quote_mark s) as [r0|] eqn:E0; [|discriminate].
    apply expect_shorter in E0.
    destruct (JSON.parse_chars r0) as [[key r1]|] eqn:E1; [|discriminate].
    apply parse_chars_shorter in E1.
    destruct (JSON.expect 58 r1) as [r2|] eqn:E2; [|discriminate].
    apply expect_shorter in E2.
    destruct (JSON.parse_value n r2) as [[v3 r3]|] eqn:E3; [|discriminate].
    apply IHv in E3.
    destruct (JSON.expect 44 r3) as [r4|] eqn:E4.
    + apply expect_shorter in E4. apply IHm in H. lia.
    + destruct (JSON.expect 125 r3) as [r4|] eqn:E5; [|discriminate].
      apply expect_shorter in E5. injection H as _ <-. lia.
Qed.

(** One more unit of the counter changes nothing once the counter is twice
    the length of the input. *)
Lemma parse_counter_step (n : nat) :
  (forall s, (2 * List.length s <= n)%nat ->
             JSON.parse_value (S n) s = JSON.parse_value n s) /\
  (forall acc s, (2 * List.length s + 1 <= n)%nat ->
                 JSON.parse_elements (S n) acc s =
                 JSON.parse_elements n acc s) /\
  (forall acc s, (2 * List.length s + 1 <= n)%nat ->
                 JSON.parse_members (S n) acc s =
                 JSON.parse_members n acc s).
Proof.
  induction n as [|n (IHv & IHe & IHm)].
  - repeat split; intros; try lia.
    destruct s; [reflexivity | cbn in *; lia].
  - destruct (parse_shorter n) as (Sv & Se & Sm).
    split; [|split].
    + intros s Hn.
      change (JSON.parse_value (S (S n)) s)
        with (match JSON.skip_ws s with
              | [] => None
              | c :: r =>
                  if c =? 91 then
                    match JSON.expect 93 r with
                    | Some r' => Some (VArr [], r')
                    | None => JSON.parse_elements (S n) [] r
                    end
                  else if c =? 123 then
                    match JSON.expect 125 r with
                    | Some r' => Some (VObj [], r')
                    | None => JSON.parse_members (S n) [] r
                    end
                  else if c =? JSON.quote_mark then
                    match JSON.parse_chars r with
                    | Some (str, r') => Some (VStr str, r')
                    | None => None
                    end
                  else if c =? 110 then JSON.parse_word "null" VNull (c :: r)
                  else if c =? 116
                       then JSON.parse_word "true" (VBool true) (c :: r)
                  else if c =? 102
                       then JSON.parse_word "false" (VBool false) (c :: r)
                  else JSON.parse_number (c :: r)
              end).
      cbn [JSON.parse_value].
      pose proof (skip_ws_length s) as Hs.
      destruct (JSON.skip_ws s) as [|c t]; [reflexivity|].
      cbn [List.length] in Hs.
      rewrite (IHe [] t) by lia. rewrite (IHm [] t) by lia. reflexivity.
    + intros acc s Hn.
      change (JSON.parse_elements (S (S n)) acc s)
        with (match JSON.parse_value (S n) s with
              | None => None
              | Some (v, r) =>
                  match JSON.expect 44 r with
                  | Some r' => JSON.parse_elements (S n) (v :: acc) r'
                  | None =>
                      match JSON.expect 93 r with
                      | Some r' => Some (VArr (rev (v :: acc)), r')
                      | None => None
                      end
                  end
              end).
      cbn [JSON.parse_elements].
      rewrite (IHv s) by lia.
      destruct (JSON.parse_value n s) as [[v r]|] eqn:E; [|reflexivity].
      apply Sv in E.
      destruct (JSON.expect 44 r) as [r'|] eqn:E'; [|reflexivity].
      apply expect_shorter in E'. apply IHe. lia.
    + intros acc s Hn.
      change (JSON.parse_members (S (S n)) acc s)
        with (match JSON.expect JSON.quote_mark s with
              | None => None
              | Some r =>
                  match JSON.parse_chars r with
                  | None => None
                  | Some (key, r1) =>
                      match JSON.expect 58 r1 with
                      | None => None
                      | Some r2 =>
                          match JSON.parse_value (S n) r2 with
                          | None => None
                          | Some (v, r3) =>
                              match JSON.expect 44 r3 with
                              | Some r4 =>
                                  JSON.parse_members (S n)
                                    ((key, v) :: acc) r4
                              | None =>
                                  match JSON.expect 125 r3 with
                                  | Some r4 =>
                                      Some (VObj (rev ((key, v) :: acc)), r4)
                                  | None => None
                                  end
                              end
                          end
                      end
                  end
              end).
      cbn [JSON.parse_members].
      destruct (JSON.expect JSON.quote_mark s) as [r0|] eqn:E0;
        [|reflexivity].
      apply expect_shorter in E0.
      destruct (JSON.parse_chars r0) as [[key r1]|] eqn:E1; [|reflexivity].
      apply parse_chars_shorter in E1.
      destruct (JSON.expect 58 r1) as [r2|] eqn:E2; [|reflexivity].
      apply expect_shorter in E2.
      rewrite (IHv r2) by lia.
      destruct (JSON.parse_value n r2) as [[v r3]|] eqn:E3; [|reflexivity].
      apply Sv in E3.
      destruct (JSON.expect 44 r3) as [r4|] eqn:E4; [|reflexivity].
      apply expect_shorter in E4. apply IHm. lia.
Qed.

(** The counter [JSON.parse] starts with is never used up: a larger one
    gives the same result. *)
Lemma parse_value_enough (s : jsstring) (n : nat) :
  (2 * List.length s + 2 <= n)%nat ->
  JSON.parse_value n s = JSON.parse_value (2 * List.length s + 2) s.
Proof.
  intros H. induction H as [|n H IH]; [reflexivity|].
  rewrite <- IH. apply parse_counter_step. lia.
Qed.

(** ** The size of the text *)

Lemma quote_unit_length (c : N) : (List.length (JSON.quote_unit c) <= 6)%nat.
Proof.
  unfold JSON.quote_unit, JSON.unicode_escape.
  repeat match goal with
         | |- context [if ?b then _ else _] => destruct b
         end; cbn; lia.
Qed.

Lemma quote_units_length (n : nat) :
  forall s,
    (List.length s <= n)%nat ->
    (List.length (JSON.quote_units s) <= 6 * List.length s)%nat.
Proof.
  induction n as [|n IH]; intros s Hn.
  - destruct s; [cbn; lia | cbn in Hn; lia].
  - destruct s as [|c s]; [cbn; lia|].
    cbn [List.length] in Hn. cbn [JSON.quote_units].
    pose proof (quote_unit_length c) as Hc.
    destruct (JSON.is_high_surrogate c).
    + destruct s as [|d s]; [cbn [List.length]; lia|].
      cbn [List.length] in Hn.
      destruct (JSON.is_low_surrogate d).
      * cbn [List.length]. specialize (IH s ltac:(lia)). lia.
      * rewrite length_app. specialize (IH (d :: s) ltac:(cbn; lia)).
        cbn [List.length] in *. lia.
    + rewrite length_app. specialize (IH s ltac:(lia)).
      cbn [List.length]. lia.
Qed.

Lemma stringify_task_length_le (t : task) :
  (List.length (JSON.stringify_task t) <= 6 * List.length (text t) + 24)%nat.
Proof.
  rewrite <- (app_nil_r (JSON.stringify_task t)), stringify_task_app.
  rewrite !length_app.
  pose proof (quote_units_length _ (text t) (le_n _)).
  destruct (done t); cbn [List.length js map list_ascii_of_string]; lia.
Qed.

Lemma join_comma_length_le (l : list task) :
  Forall (fun t => (List.length (text t) <= MAX_LENGTH)%nat) l ->
  (List.length (JSON.join_comma (map JSON.stringify_task l)) <=
   625 * List.length l)%nat.
Proof.
  unfold MAX_LENGTH.
  induction l as [|t l IH]; intros H; [cbn; lia|].
  inversion H as [|x xs Ht Hl]; subst. specialize (IH Hl).
  pose proof (stringify_task_length_le t).
  destruct l as [|t' l].
  - cbn [map JSON.join_comma List.length]. lia.
  - cbn [map JSON.join_comma] in *. rewrite !length_app.
    cbn [List.length js map list_ascii_of_string] in *. lia.
Qed.

(** A list of at most 1000 tasks of at most 100 characters is below the
    limit of [saveToLocal]. *)
Lemma stringify_within_limit (l : list task) :
  (List.length l <= MAX_TASKS)%nat ->
  Forall (fun t => (List.length (text t) <= MAX_LENGTH)%nat) l ->
  length_N (JSON.stringify l) <= SIZE_LIMIT.
Proof.
  intros Hn Hl. apply join_comma_length_le in Hl.
  unfold length_N, JSON.stringify, SIZE_LIMIT, MAX_TASKS in *.
  rewrite !length_app. cbn [List.length js map list_ascii_of_string].
  lia.
Qed.

(** ** From the parsed array back to the tasks *)

Lemma valid_records_tasks (l : list task) :
  forall n,
    (List.length l <= n)%nat ->
    Forall stable_task l ->
    valid_records (map task_value l) n = l.
Proof.
  induction l as [|t l IH]; intros n Hn H; [reflexivity|].
  inversion H as [|x xs [Hfix Hlen] Hl]; subst.
  destruct n as [|n]; [cbn in Hn; lia|].
  destruct t as [txt d]. cbn [text] in Hfix, Hlen.
  destruct txt as [|c s]; [cbn in Hlen; lia|].
  cbn [map valid_records task_value is_record andb text done].
  assert (record_text (VObj [(js "text", VStr (c :: s));
                             (js "done", VBool d)]) = c :: s) as Ht.
  { unfold record_text. cbn [get].
    change (lookup (js "text") _) with (Some (VStr (c :: s))).
    cbn [truthy is_empty negb]. exact Hfix. }
  change (task_value (mkTask (c :: s) d))
    with (VObj [(js "text", VStr (c :: s)); (js "done", VBool d)]).
  rewrite Ht. cbn [is_empty negb].
  change (record_done _) with d.
  rewrite IH by (cbn in Hn; lia || assumption).
  reflexivity.
Qed.

(** The hypothesis of the round trip cannot be weakened: when the load
    gives the list back, each text is one the sanitizer leaves as it is. *)
Lemma valid_records_length (items : list value) :
  forall n, (List.length (valid_records items n) <= List.length items)%nat.
Proof.
  induction items as [|item rest IH]; intros n; [cbn; lia|].
  destruct n as [|n]; cbn [valid_records List.length]; [lia|].
  destruct (_ && _); cbn [List.length].
  - specialize (IH n). lia.
  - specialize (IH (S n)). lia.
Qed.

Lemma valid_records_tasks_only_stable (l : list task) :
  forall n,
    valid_records (map task_value l) n = l ->
    Forall (fun t => sanitizeText (VStr (text t)) = text t /\ text t <> []) l.
Proof.
  induction l as [|t l IH]; intros n H; [constructor|].
  destruct n as [|n]; [discriminate|].
  cbn [map valid_records] in H.
  destruct t as [txt d].
  change (task_value (mkTask txt d))
    with (VObj [(js "text", VStr txt); (js "done", VBool d)]) in H.
  assert (record_text (VObj [(js "text", VStr txt); (js "done", VBool d)]) =
          if is_empty txt then [] else sanitizeText (VStr txt)) as Ht.
  { unfold record_text. cbn [get].
    change (lookup (js "text") _) with (Some (VStr txt)).
    cbn [truthy]. now destruct txt. }
  rewrite Ht in H. cbn [is_record andb] in H.
  destruct txt as [|c s]; cbn [is_empty negb] in H.
  - pose proof (valid_records_length (map task_value l) (S n)) as Hl.
    rewrite H, length_map in Hl. cbn in Hl. lia.
  - destruct (sanitizeText (VStr (c :: s))) as [|c' s'] eqn:E;
      cbn [is_empty negb] in H.
    + pose proof (valid_records_length (map task_value l) (S n)) as Hl.
      rewrite H, length_map in Hl. cbn in Hl. lia.
    + injection H as H1 H2 H3. subst c' s'.
      constructor; [|now apply (IH n)].
      cbn [text]. split; [assumption | discriminate].
Qed.

(** A sanitized text that is plain is stable. *)
Lemma sanitized_plain_stable (t : task) :
  sanitized_task t -> plain (text t) = true -> stable_task t.
Proof.
  intros [[raw Hraw] Hlen] Hp. split; [|assumption].
  cbn [sanitizeText]. apply sanitize_string_fixed; [assumption|].
  intros x Hx. rewrite Hraw in Hx. cbn [sanitizeText] in Hx.
  now apply sanitize_string_clean in Hx.
Qed.

Lemma load_only_stable (l : list task) (st : state) :
  storage st = Some (JSON.stringify l) ->
  loadFromLocal st = Ret l st ->
  Forall (fun t => sanitizeText (VStr (text t)) = text t /\ text t <> []) l.
Proof.
  intros Hs H.
  rewrite (loadFromLocal_array st (JSON.stringify l) (map task_value l)) in H.
  - injection H as H. now apply valid_records_tasks_only_stable in H.
  - assumption.
  - unfold JSON.stringify. discriminate.
  - apply parse_stringify.
Qed.

Section RoundTrip.

Variable setItem_refuses : jsstring -> bool.

(** C1 (as the code has it): for a list of at most 1000 tasks whose texts
    have 1 to 100 characters and are left as they are by [sanitizeText],
    [saveToLocal] with the toggle on and no refusal of the write returns
    [true], and [loadFromLocal] on the blob it wrote returns the list. *)
Theorem save_load_round_trip (st : state) :
  (List.length (todos st) <= MAX_TASKS)%nat ->
  Forall stable_task (todos st) ->
  autosaveChecked st = true ->
  setItem_refuses (JSON.stringify (todos st)) = false ->
  exists st1,
    saveToLocal setItem_refuses st = Ret true st1 /\
    storage st1 = Some (JSON.stringify (todos st)) /\
    loadFromLocal st1 = Ret (todos st) st1.
Proof.
  intros Hn Hl Ha Hr.
  eexists. split; [|split].
  - apply saveToLocal_writes; [assumption | | assumption].
    apply stringify_within_limit; [assumption|].
    eapply Forall_impl; [|exact Hl]. intros t [_ H]. exact (proj2 H).
  - reflexivity.
  - rewrite (loadFromLocal_array _ (JSON.stringify (todos st))
               (map task_value (todos st))).
    + now rewrite valid_records_tasks.
    + reflexivity.
    + unfold JSON.stringify. discriminate.
    + apply parse_stringify.
Qed.

End RoundTrip.

(** C1 (as the specification states it): the task of text [a&amp;b],
    which is what [sanitizeText] makes of [a&b], is saved as it is and
    loaded with its ampersand escaped once more. *)
Lemma save_load_changes_ampersand :
  Forall sanitized_task [mkTask (js "a&amp;b") false] /\
  saveToLocal (fun _ => false)
    (mkState [mkTask (js "a&amp;b") false] true true None []) =
  Ret true
    (mkState [mkTask (js "a&amp;b") false] false true
       (Some (JSON.stringify [mkTask (js "a&amp;b") false])) []) /\
  loadFromLocal
    (mkState [mkTask (js "a&amp;b") false] false true
       (Some (JSON.stringify [mkTask (js "a&amp;b") false])) []) =
  Ret [mkTask (js "a&amp;amp;b") false]
    (mkState [mkTask (js "a&amp;b") false] false true
       (Some (JSON.stringify [mkTask (js "a&amp;b") false])) []).
Proof.
  split; [|split].
  - constructor; [|constructor]. split.
    + exists (js "a&b"). vm_compute. reflexivity.
    + vm_compute. lia.
  - vm_compute. reflexivity.
  - vm_compute. reflexivity.
Qed.

Lemma save_load_round_trip_witness :
  exists st1,
    saveToLocal (fun _ => false)
      (mkState [mkTask (js "Buy milk") true; mkTask (js "Walk dog") false]
               true true None []) = Ret true st1 /\
    storage st1 =
    Some (JSON.stringify
            [mkTask (js "Buy milk") true; mkTask (js "Walk dog") false]) /\
    loadFromLocal st1 =
    Ret [mkTask (js "Buy milk") true; mkTask (js "Walk dog") false] st1.
Proof.
  apply (save_load_round_trip (fun _ => false)
           (mkState [mkTask (js "Buy milk") true;
                     mkTask (js "Walk dog") false] true true None [])).
  - vm_compute. lia.
  - repeat constructor; vm_compute; try reflexivity; lia.
  - reflexivity.
  - reflexivity.
Defined.

(* ================================================================== *)
(** * Further properties: the sanitizer *)

Lemma suffix_of_length (a s : jsstring) :
  suffix_of a s -> (List.length a <= List.length s)%nat.
Proof. intros [x ->]. rewrite length_app. lia. Qed.

(** The iterations of [r*] succeed when what follows succeeds. *)
Lemma star_loop_succeeds (body : option N -> jsstring -> cont -> option jsstring)
    (k : cont) :
  (forall p s, k p s <> None) ->
  forall n p s, star_loop body k n p s <> None.
Proof.
  intros Hk n p s. destruct n as [|n]; cbn [star_loop]; [apply Hk|].
  destruct (body p s _); [discriminate | apply Hk].
Qed.

(** The pattern of the white space matches at every white-space
    character, and never the empty text. *)
Lemma exec_re_spaces_at_space p (c : N) (t : jsstring) :
  is_space c = true -> exists n, exec re_spaces p (c :: t) = Some (S n).
Proof.
  intros H. unfold exec, re_spaces, Plus. cbn [m]. rewrite H.
  destruct (star_loop _ _ _ (Some c) t) as [s'|] eqn:E.
  - apply (m_reaches (Star (Chr is_space)) (Some c) t) in E
      as (p' & s'' & Hs & [= <-]).
    apply suffix_of_length in Hs.
    exists (List.length t - List.length s'')%nat. f_equal.
    cbn [List.length]. lia.
  - now apply star_loop_succeeds in E.
Qed.

(** After the collapse of the white space the only white space left is
    the plain space. *)
Lemma replace_spaces_only_space (x : N) :
  forall s p skip,
    In x (replace_go re_spaces (fun _ => js " ") p skip s) ->
    is_space x = true -> x = 32.
Proof.
  induction s as [|c t IH]; intros p skip H Hx.
  - destruct skip; cbn [replace_go] in H; [|contradiction].
    destruct (exec re_spaces p []); [|contradiction].
    rewrite app_nil_r in H. destruct H as [<- | []]. reflexivity.
  - destruct skip as [|skip]; cbn [replace_go] in H; [|now apply IH in H].
    destruct (is_space c) eqn:Ec.
    + destruct (exec_re_spaces_at_space p c t Ec) as [n En].
      rewrite En in H. cbv beta iota in H.
      apply in_app_or in H as [[<- | []] | H]; [reflexivity|].
      now apply IH in H.
    + rewrite exec_re_spaces_other in H by assumption.
      destruct H as [<- | H]; [congruence | now apply IH in H].
Qed.

(** The result of [sanitizeText] is made of clean code units and of no
    white space but the plain space. *)
Lemma sanitizeText_forallb (input : value) :
  forallb clean_unit (sanitizeText input) = true.
Proof.
  apply forallb_forall. intros x H.
  destruct input; cbn [sanitizeText] in H; try contradiction.
  now apply sanitize_string_clean in H.
Qed.

Lemma sanitizeText_spaces (input : value) :
  forallb plain_space_only (sanitizeText input) = true.
Proof.
  apply forallb_forall. intros x H. unfold plain_space_only.
  destruct input; cbn [sanitizeText] in H; try contradiction.
  unfold sanitize_string in H. rewrite remove_control_filter in H.
  apply filter_In in H as [H _].
  unfold collapse_spaces in H. apply trim_In in H.
  destruct (is_space x) eqn:Ex; [|reflexivity].
  apply replace_spaces_only_space in H; [|assumption].
  subst x. reflexivity.
Qed.

Lemma sanitizeText_kept (input : value) :
  sanitizeText input <> [] -> kept_text (sanitizeText input).
Proof.
  intros H. split; [assumption|].
  split; [apply sanitizeText_forallb | apply sanitizeText_spaces].
Qed.

(** X1: the result of [sanitizeText] holds no white space but the plain
    space: no tab, no line feed, no carriage return, no other space
    character; a text of the list is a single line. *)
Theorem sanitizeText_only_plain_spaces (input : value) :
  forallb plain_space_only (sanitizeText input) = true.
Proof. apply sanitizeText_spaces. Qed.

(** X2: [sanitizeText] gives back a plain text of clean characters as it
    is: a text without bracket, quote, ampersand and control character,
    without one of the three schemes before a colon, and single-spaced. *)
Theorem sanitizeText_keeps_plain (t : jsstring) :
  plain t = true -> forallb clean_unit t = true ->
  sanitizeText (VStr t) = t.
Proof.
  intros Hp Hc. cbn [sanitizeText].
  apply sanitize_string_fixed; [assumption|].
  now apply forallb_forall.
Qed.

Lemma sanitizeText_keeps_plain_witness :
  sanitizeText (VStr (js "Meet Ann at 10:30 (room 2)")) =
  js "Meet Ann at 10:30 (room 2)".
Proof.
  apply sanitizeText_keeps_plain; vm_compute; reflexivity.
Defined.

Lemma trimStart_spaces (s : jsstring) :
  forallb is_space s = true -> trimStart s = [].
Proof.
  induction s as [|c s IH]; [reflexivity|]. cbn.
  intros H. apply andb_true_iff in H as [-> H]. auto.
Qed.

Section Blank.

Variable toLowerCase : jsstring -> jsstring.

(** X3: an input of white space only, the empty input among them, is
    refused as empty, whatever the list. *)
Theorem validateTask_blank (s : jsstring) (l : list task) :
  forallb is_space s = true ->
  validateTask toLowerCase (VStr s) l =
  Invalid "Task cannot be empty or contain only special characters.".
Proof.
  intros H. unfold validateTask. cbn [sanitizeText].
  assert (sanitize_string s = []) as ->; [|reflexivity].
  unfold sanitize_string, trim. rewrite (trimStart_spaces s H).
  vm_compute. reflexivity.
Qed.

End Blank.

Lemma validateTask_blank_witness :
  validateTask lower_ascii (VStr (js "   " ++ [9; 10]))
               [mkTask (js "Buy milk") true] =
  Invalid "Task cannot be empty or contain only special characters.".
Proof.
  apply (validateTask_blank lower_ascii). vm_compute. reflexivity.
Defined.

(* ================================================================== *)
(** * Further properties: the list and its handlers *)

Lemma splice1_firstn_skipn (idx : nat) (l : list task) :
  splice1 idx l = firstn idx l ++ skipn (S idx) l.
Proof.
  revert idx. induction l as [|t l IH]; intros [|i]; cbn; try reflexivity.
  f_equal. apply IH.
Qed.

Lemma toggle_at_nth (idx : nat) (l : list task) :
  toggle_at idx l =
  match nth_error l idx with
  | Some t =>
      Some (firstn idx l ++ mkTask (text t) (negb (done t)) :: skipn (S idx) l)
  | None => None
  end.
Proof.
  revert idx. induction l as [|t l IH]; intros [|i]; cbn; try reflexivity.
  rewrite IH. now destruct (nth_error l i).
Qed.

Lemma toggle_at_twice (idx : nat) (l l' : list task) :
  toggle_at idx l = Some l' -> toggle_at idx l' = Some l.
Proof.
  revert idx l'. induction l as [|t l IH]; intros [|i] l' H; cbn in H;
    try discriminate.
  - injection H as <-. cbn. rewrite negb_involutive. now destruct t.
  - destruct (toggle_at i l) as [l''|] eqn:E; [|discriminate].
    injection H as <-. cbn. now rewrite (IH i l'' E).
Qed.

Section Handlers.

Variable toLowerCase : jsstring -> jsstring.
Variable setItem_refuses : jsstring -> bool.

(** What [validateTask] accepts. *)
Lemma validateTask_accepts (input : value) (l : list task) (s : jsstring) :
  validateTask toLowerCase input l = Valid s ->
  s = sanitizeText input /\ s <> [] /\
  (List.length s <= MAX_LENGTH)%nat /\
  isDuplicate toLowerCase s l = false /\
  (List.length l < MAX_TASKS)%nat.
Proof.
  unfold validateTask.
  destruct (_ || _) eqn:E0; [discriminate|].
  destruct (MAX_LENGTH <? List.length (sanitizeText input))%nat eqn:El;
    [discriminate|].
  destruct (isDuplicate _ _ _) eqn:Ed; [discriminate|].
  destruct (MAX_TASKS <=? _)%nat eqn:Ec; [discriminate|].
  intros [= <-]. repeat split; try assumption.
  - intros E. now rewrite E in E0.
  - now apply Nat.ltb_ge.
  - now apply Nat.leb_gt.
Qed.

(** [deleteTask] and [toggleTask] leave the list that [splice1] and
    [toggle_at] give, whatever the save does. *)
Lemma deleteTask_todos (idx : nat) (st : state) :
  todos (state_of (deleteTask setItem_refuses idx st)) =
  splice1 idx (todos st).
Proof.
  unfold deleteTask. run_steps.
  match goal with
  | |- context [saveToLocal _ ?s] =>
      destruct (saveToLocal_returns setItem_refuses s) as (b & s' & -> & Ht)
  end.
  run_steps. exact Ht.
Qed.

Lemma toggleTask_todos (idx : nat) (st : state) :
  match toggle_at idx (todos st) with
  | Some l' => todos (state_of (toggleTask setItem_refuses idx st)) = l'
  | None => state_of (toggleTask setItem_refuses idx st) = st
  end.
Proof.
  unfold toggleTask. run_steps.
  destruct (toggle_at idx (todos st)) as [l'|]; run_steps; [|reflexivity].
  match goal with
  | |- context [saveToLocal _ ?s] =>
      destruct (saveToLocal_returns setItem_refuses s) as (b & s' & -> & Ht)
  end.
  run_steps. exact Ht.
Qed.

(** X4: [addTask] leaves the list as it was or appends one task, not
    done, whose text is the sanitized input, kept and of at most 100
    characters; the tasks before it stay as they are and in their order,
    and the list had fewer than 1000 tasks. *)
Theorem addTask_appends (input : jsstring) (st : state) :
  let st' := state_of (addTask toLowerCase setItem_refuses input st) in
  let sanitized := sanitizeText (VStr input) in
  todos st' = todos st \/
  (todos st' = todos st ++ [mkTask sanitized false] /\
   kept_text sanitized /\
   (List.length sanitized <= MAX_LENGTH)%nat /\
   (List.length (todos st) < MAX_TASKS)%nat).
Proof.
  cbv zeta.
  destruct (addTask_todos toLowerCase setItem_refuses input st)
    as [H | (s & Hv & H)]; [now left | right].
  apply validateTask_accepts in Hv as (-> & Hne & Hl & _ & Hc).
  repeat split; try assumption; now apply sanitizeText_kept.
Qed.

(** X5: once an input was added, an input whose sanitized text has 1 to
    100 characters and is equal to it up to case is refused as a
    duplicate: the session only shows the message. *)
Theorem addTask_again_refused (input again : jsstring) (st : state) :
  let st1 := state_of (addTask toLowerCase setItem_refuses input st) in
  todos st1 <> todos st ->
  sanitizeText (VStr again) <> [] ->
  (List.length (sanitizeText (VStr again)) <= MAX_LENGTH)%nat ->
  toLowerCase (sanitizeText (VStr again)) =
  toLowerCase (sanitizeText (VStr input)) ->
  state_of (addTask toLowerCase setItem_refuses again st1) =
  reporting "This task already exists!" st1.
Proof.
  cbv zeta. intros Hch Hne Hlen Hlow.
  destruct (addTask_todos toLowerCase setItem_refuses input st)
    as [H | (s & Hv & H)]; [congruence|].
  apply validateTask_accepts in Hv as (-> & _).
  set (st1 := state_of (addTask toLowerCase setItem_refuses input st)) in *.
  unfold addTask. run_steps. unfold validateTask.
  destruct (sanitizeText (VStr again)) as [|c t] eqn:Ea; [congruence|].
  assert ((List.length (c :: t) <? MIN_LENGTH)%nat = false) as Hmin
    by reflexivity.
  cbn [is_empty orb]. rewrite Hmin.
  apply Nat.ltb_ge in Hlen. rewrite Hlen.
  assert (isDuplicate toLowerCase (c :: t) (todos st1) = true) as ->.
  { apply isDuplicate_spec. exists (mkTask (sanitizeText (VStr input)) false).
    split; [|now cbn [text]]. rewrite H. apply in_or_app. right. now left. }
  run_steps. now destruct st1.
Qed.

(** X6: when the automatic save is on and the storage refuses the list
    with the new task, [addTask] takes the task back: the list is as it
    was, and a message is shown. *)
Theorem addTask_rollback (input : jsstring) (st : state) :
  let st' := state_of (addTask toLowerCase setItem_refuses input st) in
  autosaveChecked st = true ->
  setItem_refuses
    (JSON.stringify (todos st ++ [mkTask (sanitizeText (VStr input)) false]))
  = true ->
  todos st' = todos st /\ exists message, shown st' = message :: shown st.
Proof.
  cbv zeta. intros Ha Hr. destruct st as [l u a b sh].
  cbn [autosaveChecked todos shown] in *. subst a.
  unfold addTask. run_steps.
  destruct (validateTask _ _ _) as [error | s] eqn:Ev; run_steps.
  - cbn. eauto.
  - apply validateTask_accepts in Ev as (-> & _).
    unfold saveToLocal. run_steps.
    destruct (SIZE_LIMIT <? _); run_steps.
    + cbn. rewrite removelast_last. eauto.
    + rewrite Hr. run_steps. cbn. rewrite removelast_last. eauto.
Qed.

(** X7: [deleteTask] takes out the task at the index and no other; an
    index past the end takes out nothing. *)
Theorem deleteTask_removes (idx : nat) (st : state) :
  let st' := state_of (deleteTask setItem_refuses idx st) in
  todos st' = firstn idx (todos st) ++ skipn (S idx) (todos st) /\
  ((List.length (todos st) <= idx)%nat -> todos st' = todos st).
Proof.
  cbv zeta. rewrite deleteTask_todos, splice1_firstn_skipn.
  split; [reflexivity|]. intros H.
  rewrite firstn_all2, skipn_all2 by lia. apply app_nil_r.
Qed.

(** X8: [toggleTask] flips the flag of the task at the index and changes
    nothing else in the list; at an index past the end it throws and
    leaves the session as it was. *)
Theorem toggleTask_flips (idx : nat) (st : state) :
  let st' := state_of (toggleTask setItem_refuses idx st) in
  (forall t, nth_error (todos st) idx = Some t ->
     todos st' =
     firstn idx (todos st) ++
     mkTask (text t) (negb (done t)) :: skipn (S idx) (todos st)) /\
  (nth_error (todos st) idx = None ->
     st' = st /\ toggleTask setItem_refuses idx st = Throw TypeError st).
Proof.
  cbv zeta. pose proof (toggleTask_todos idx st) as H.
  rewrite toggle_at_nth in H. split.
  - intros t Ht. now rewrite Ht in H.
  - intros Hn. rewrite Hn in H. split; [assumption|].
    unfold toggleTask. run_steps. rewrite toggle_at_nth, Hn. reflexivity.
Qed.

(** X9: toggling the same task twice gives the list back. *)
Theorem toggleTask_twice (idx : nat) (st : state) :
  todos (state_of (toggleTask setItem_refuses idx
                     (state_of (toggleTask setItem_refuses idx st)))) =
  todos st.
Proof.
  pose proof (toggleTask_todos idx st) as H1.
  destruct (toggle_at idx (todos st)) as [l'|] eqn:E1.
  - pose proof (toggleTask_todos idx
                  (state_of (toggleTask setItem_refuses idx st))) as H2.
    rewrite H1, (toggle_at_twice _ _ _ E1) in H2. exact H2.
  - rewrite H1. pose proof (toggleTask_todos idx st) as H2.
    rewrite E1 in H2. now rewrite H2.
Qed.

(** X10: deleting the last position after an [addTask] gives the list
    back, whether the task was added or refused. *)
Theorem addTask_then_delete (input : jsstring) (st : state) :
  todos (state_of (deleteTask setItem_refuses (List.length (todos st))
                     (state_of (addTask toLowerCase setItem_refuses
                                  input st)))) =
  todos st.
Proof.
  rewrite deleteTask_todos, splice1_firstn_skipn.
  destruct (addTask_todos toLowerCase setItem_refuses input st)
    as [-> | (s & _ & ->)].
  - rewrite firstn_all, skipn_all2 by lia. apply app_nil_r.
  - rewrite firstn_app, Nat.sub_diag, firstn_all, skipn_all2
      by (rewrite length_app; cbn; lia).
    cbn. now rewrite !app_nil_r.
Qed.

End Handlers.

Lemma addTask_again_refused_witness :
  state_of (addTask lower_ascii (fun _ => false) (js "BUY  MILK")
              (state_of (addTask lower_ascii (fun _ => false) (js "Buy milk")
                           (mkState [] false false None [])))) =
  reporting "This task already exists!"
    (state_of (addTask lower_ascii (fun _ => false) (js "Buy milk")
                 (mkState [] false false None []))).
Proof.
  apply (addTask_again_refused lower_ascii (fun _ => false)).
  - vm_compute. discriminate.
  - vm_compute. discriminate.
  - vm_compute. lia.
  - vm_compute. reflexivity.
Defined.

Lemma addTask_rollback_witness :
  todos (state_of (addTask lower_ascii (fun _ => true) (js "Buy milk")
                     (mkState [mkTask (js "Walk dog") true] false true
                              None []))) =
  [mkTask (js "Walk dog") true].
Proof.
  apply (addTask_rollback lower_ascii (fun _ => true) (js "Buy milk")
           (mkState [mkTask (js "Walk dog") true] false true None []));
    reflexivity.
Defined.

Lemma deleteTask_removes_witness :
  todos (state_of (deleteTask (fun _ => false) 5
                     (mkState [mkTask (js "Walk dog") true] false false
                              None []))) =
  [mkTask (js "Walk dog") true].
Proof.
  apply (deleteTask_removes (fun _ => false) 5
           (mkState [mkTask (js "Walk dog") true] false false None [])).
  vm_compute. lia.
Defined.

Lemma toggleTask_flips_witness :
  todos (state_of (toggleTask (fun _ => false) 0
                     (mkState [mkTask (js "Walk dog") true] false false
                              None []))) =
  [mkTask (js "Walk dog") false].
Proof.
  destruct (toggleTask_flips (fun _ => false) 0
              (mkState [mkTask (js "Walk dog") true] false false None []))
    as [H _].
  apply (H (mkTask (js "Walk dog") true)). reflexivity.
Defined.

(* ================================================================== *)
(** * Further properties: the store *)

Lemma record_text_task_value (t : task) :
  record_text (task_value t) = sanitizeText (VStr (text t)).
Proof.
  unfold record_text, task_value. cbn [get].
  change (lookup (js "text") _) with (Some (VStr (text t))).
  cbn [truthy sanitizeText]. destruct (text t); [|reflexivity].
  cbn [is_empty negb]. now rewrite sanitize_string_nil.
Qed.

Lemma valid_records_reloaded (l : list task) :
  forall n,
    valid_records (map task_value l) n =
    firstn n (filter (fun t => negb (is_empty (text t))) (map reloaded l)).
Proof.
  induction l as [|t l IH]; intros n; [now destruct n|].
  cbn [map valid_records filter].
  destruct n as [|n].
  - now rewrite firstn_O.
  - rewrite record_text_task_value.
    change (is_record (task_value t)) with true.
    change (record_done (task_value t)) with (done t).
    cbn [andb reloaded text].
    destruct (negb (is_empty (sanitizeText (VStr (text t))))).
    + cbn [firstn]. now rewrite IH.
    + apply IH.
Qed.

Section StoreMore.

Variable setItem_refuses : jsstring -> bool.

(** With the toggle off [saveToLocal] does nothing. *)
Lemma saveToLocal_off (l : list task) (u : bool) (b : option jsstring)
    (sh : list string) :
  saveToLocal setItem_refuses (mkState l u false b sh) =
  Ret true (mkState l u false b sh).
Proof. reflexivity. Qed.

(** With the toggle on, a save that returns [true] has written the text
    of the list. *)
Lemma saveToLocal_true (st st1 : state) :
  autosaveChecked st = true ->
  saveToLocal setItem_refuses st = Ret true st1 ->
  st1 = mkState (todos st) false true
                (Some (JSON.stringify (todos st))) (shown st).
Proof.
  destruct st as [l u a b sh]. cbn [autosaveChecked todos shown].
  intros ->. unfold saveToLocal. run_steps.
  destruct (SIZE_LIMIT <? _); run_steps; [discriminate|].
  destruct (setItem_refuses _); run_steps; [discriminate|].
  now intros [= <-].
Qed.

(** X11: [loadFromLocal] reads any blob that [saveToLocal] wrote without a
    failure: it returns the saved tasks in their order and with their
    flags, each text sanitized once more, without those whose text comes
    out empty, and at most 1000 of them. *)
Theorem load_after_save (st st1 : state) :
  autosaveChecked st = true ->
  saveToLocal setItem_refuses st = Ret true st1 ->
  loadFromLocal st1 =
  Ret (firstn MAX_TASKS
         (filter (fun t => negb (is_empty (text t)))
                 (map reloaded (todos st)))) st1.
Proof.
  intros Ha Hs. rewrite (saveToLocal_true st st1 Ha Hs).
  rewrite (loadFromLocal_array _ (JSON.stringify (todos st))
             (map task_value (todos st))).
  - now rewrite valid_records_reloaded.
  - reflexivity.
  - unfold JSON.stringify. discriminate.
  - apply parse_stringify.
Qed.

End StoreMore.

Lemma load_after_save_witness :
  loadFromLocal
    (mkState [mkTask (js "a&b") true; mkTask (js "<i></i>") false]
             false true
             (Some (JSON.stringify
                      [mkTask (js "a&b") true; mkTask (js "<i></i>") false]))
             []) =
  Ret [mkTask (js "a&amp;b") true]
    (mkState [mkTask (js "a&b") true; mkTask (js "<i></i>") false]
             false true
             (Some (JSON.stringify
                      [mkTask (js "a&b") true; mkTask (js "<i></i>") false]))
             []).
Proof.
  apply (load_after_save (fun _ => false)
           (mkState [mkTask (js "a&b") true; mkTask (js "<i></i>") false]
                    true true None [])).
  - reflexivity.
  - vm_compute. reflexivity.
Defined.

(* ================================================================== *)
(** * Further properties: the text of an export *)

Lemma list_ind2 (P : list N -> Prop) :
  P [] -> (forall x, P [x]) ->
  (forall x y l, P l -> P (y :: l) -> P (x :: y :: l)) ->
  forall l, P l.
Proof.
  intros H0 H1 H2 l.
  assert (P l /\ forall x, P (x :: l)) as [H _]; [|exact H].
  induction l as [|y l [IH1 IH2]]; [now split|].
  split; [apply IH2|]. intros x. now apply H2.
Qed.

(** The conversion goes through a character that is no surrogate. *)
Lemma toWellFormed_sep (c : N) (b : jsstring) :
  is_lead c = false -> is_trail c = false ->
  forall a,
    toWellFormed (a ++ c :: b) = toWellFormed a ++ c :: toWellFormed b.
Proof.
  intros Hl Ht a. induction a as [|x|x y a IH1 IH2] using list_ind2.
  - cbn [app toWellFormed]. now rewrite Hl, Ht.
  - cbn [app toWellFormed]. rewrite Hl, Ht.
    destruct (is_lead x); [reflexivity|].
    destruct (is_trail x); reflexivity.
  - change ((x :: y :: a) ++ c :: b) with (x :: (y :: a) ++ c :: b).
    change (toWellFormed (x :: (y :: a) ++ c :: b)) with
      (if is_lead x then
         if is_trail y then x :: y :: toWellFormed (a ++ c :: b)
         else 65533 :: toWellFormed ((y :: a) ++ c :: b)
       else if is_trail x then 65533 :: toWellFormed ((y :: a) ++ c :: b)
       else x :: toWellFormed ((y :: a) ++ c :: b)).
    change (toWellFormed (x :: y :: a)) with
      (if is_lead x then
         if is_trail y then x :: y :: toWellFormed a
         else 65533 :: toWellFormed (y :: a)
       else if is_trail x then 65533 :: toWellFormed (y :: a)
       else x :: toWellFormed (y :: a)).
    rewrite IH1, IH2.
    destruct (is_lead x); [destruct (is_trail y); reflexivity|].
    destruct (is_trail x); reflexivity.
Qed.

Lemma export_line_cons (t : task) :
  export_line t =
  91 :: (if done t then 120 else 32) :: 93 :: 32 :: text t.
Proof. unfold export_line. now destruct (done t). Qed.

Lemma toWellFormed_export_line (t : task) :
  toWellFormed (export_line t) = export_line (shipped t).
Proof.
  rewrite !export_line_cons. cbn [shipped text done].
  destruct (done t); reflexivity.
Qed.

Lemma toWellFormed_join (lines : list jsstring) :
  toWellFormed (join_lines lines) = join_lines (map toWellFormed lines).
Proof.
  induction lines as [|x [|y ls] IH]; [reflexivity | reflexivity |].
  change (join_lines (x :: y :: ls)) with (x ++ 10 :: join_lines (y :: ls)).
  rewrite toWellFormed_sep by reflexivity. rewrite IH. reflexivity.
Qed.

(** The text of the blob of an export is the export of the tasks as they
    are shipped. *)
Lemma toWellFormed_export (l : list task) :
  toWellFormed (export_content l) = export_content (map shipped l).
Proof.
  unfold export_content. rewrite toWellFormed_join, !map_map.
  f_equal. apply map_ext. apply toWellFormed_export_line.
Qed.
















(* ================================================================== *)
(** * Further properties: the session across the actions *)

(** ** The texts the list keeps *)

Lemma import_lines_Forall (Q : task -> Prop) :
  (forall s d, kept_text s ->
               (List.length s <= MAX_LENGTH)%nat -> Q (mkTask s d)) ->
  forall lines acc,
    Forall Q acc -> Forall Q (import_lines lines acc).
Proof.
  intros HQ. induction lines as [|line rest IH]; intros acc Hacc;
    cbn [import_lines]; [assumption|].
  cbv zeta. destruct (is_empty (sanitizeText (VStr line))); [now apply IH|].
  match goal with
  | |- context [negb (is_empty ?s) && (List.length ?s <=? MAX_LENGTH)%nat] =>
      destruct (negb (is_empty s) && (List.length s <=? MAX_LENGTH)%nat)
        eqn:E; [|now apply IH];
      apply andb_true_iff in E as [E1 E2];
      apply IH, Forall_app; split; [assumption|];
      constructor; [|constructor];
      apply HQ;
      [ apply sanitizeText_kept;
        intros E0; rewrite E0 in E1; discriminate
      | now apply Nat.leb_le ]
  end.
Qed.

Lemma valid_records_kept (items : list value) :
  forall n, Forall (fun t => kept_text (text t)) (valid_records items n).
Proof.
  induction items as [|item rest IH]; intros n; [constructor|].
  destruct n as [|n]; [constructor|]. cbn [valid_records].
  destruct (is_record item && _) eqn:E; [|apply IH].
  apply andb_true_iff in E as [_ E].
  constructor; [|apply IH]. cbn [text].
  assert (record_text item <> []) as Hne
    by (intros E0; now rewrite E0 in E).
  unfold record_text in *. destruct (truthy _); [|congruence].
  now apply sanitizeText_kept.
Qed.

Lemma loadFromLocal_kept (st : state) :
  exists l st',
    loadFromLocal st = Ret l st' /\
    Forall (fun t => kept_text (text t)) l /\
    storage st' = storage st /\ autosaveChecked st' = autosaveChecked st /\
    unsavedChanges st' = unsavedChanges st.
Proof.
  unfold loadFromLocal. run_steps.
  destruct (falsy_item (storage st)); run_steps.
  - eexists _, _. repeat split. constructor.
  - destruct (JSON.parse _) as [[]|]; run_steps;
      eexists _, _; (split; [reflexivity|]); repeat split;
      try constructor.
    rewrite load_chain_valid_records. apply valid_records_kept.
Qed.

Lemma splice1_Forall (Q : task -> Prop) (idx : nat) (l : list task) :
  Forall Q l -> Forall Q (splice1 idx l).
Proof.
  intros H. apply Forall_forall. intros t Ht.
  apply splice1_incl in Ht. revert t Ht. now apply Forall_forall.
Qed.

Lemma toggle_at_Forall (P : jsstring -> Prop) (idx : nat) (l l' : list task) :
  toggle_at idx l = Some l' ->
  Forall (fun t => P (text t)) l -> Forall (fun t => P (text t)) l'.
Proof.
  intros E H. apply toggle_at_texts in E.
  apply (Forall_map text P). rewrite E. now apply (Forall_map text P).
Qed.

Lemma sample_tasks_kept :
  Forall (fun t => kept_text (text t) /\
                   (List.length (text t) <= MAX_LENGTH)%nat) sample_tasks.
Proof.
  repeat constructor; try discriminate; vm_compute; try reflexivity; lia.
Qed.

Lemma bind_ret_state {A} (c : M A) (st : state) :
  state_of (bind c (fun _ => ret tt) st) = state_of (c st).
Proof. unfold bind, ret. now destruct (c st). Qed.

Section Actions.

Variable toLowerCase : jsstring -> jsstring.
Variable setItem_refuses : jsstring -> bool.
Variable download_fails : jsstring -> bool.
Variable setFlag_refuses : jsstring -> bool.

(** The list after [getTasks], [exportTasks] and the handler of the
    toggle. *)
Lemma getTasks_todos (st : state) :
  todos (state_of (getTasks setItem_refuses st)) =
  match todos st with
  | [] => sample_tasks
  | _ :: _ => todos st
  end.
Proof.
  unfold getTasks. run_steps. destruct (todos st) eqn:E; run_steps.
  - match goal with
    | |- context [saveToLocal _ ?s] =>
        destruct (saveToLocal_returns setItem_refuses s) as (b & s' & -> & Ht)
    end.
    run_steps. exact Ht.
  - cbn [state_of]. exact E.
Qed.

Lemma exportTasks_state (st : state) :
  state_of (exportTasks download_fails st) =
  if download_fails (toWellFormed (export_content (todos st)))
  then reporting "Failed to export tasks." st
  else mkState (todos st) false (autosaveChecked st) (storage st)
               ("Tasks exported successfully!"%string :: shown st).
Proof.
  unfold exportTasks, download. run_steps.
  destruct (download_fails _); run_steps; reflexivity.
Qed.

Lemma autosaveChanged_todos (b : bool) (st : state) :
  todos (state_of (autosaveChanged setItem_refuses setFlag_refuses b st)) =
  todos st.
Proof.
  unfold autosaveChanged, setFlag, set_autosaveChecked. run_steps.
  destruct (setFlag_refuses _); run_steps; [reflexivity|].
  destruct b; run_steps; [|reflexivity].
  match goal with
  | |- context [saveToLocal _ ?s] =>
      destruct (saveToLocal_returns setItem_refuses s) as (r & s' & -> & Ht)
  end.
  run_steps. exact Ht.
Qed.

(** The list after an action: what each action can make of it. *)
Lemma after_todos (a : action) (st : state) :
  let l' := todos (after toLowerCase setItem_refuses download_fails
                         setFlag_refuses a st) in
  l' = todos st \/
  (exists input s,
     a = Edit (AddTask input) /\
     validateTask toLowerCase (VStr input) (todos st) = Valid s /\
     l' = todos st ++ [mkTask s false]) \/
  (exists idx, a = Edit (DeleteTask idx) /\ l' = splice1 idx (todos st)) \/
  (exists idx, a = Edit (ToggleTask idx) /\
               toggle_at idx (todos st) = Some l') \/
  (exists chosen f text,
     a = Edit (ImportFile chosen) /\ chosen = Some f /\
     content f = Some text /\
     (List.length (nonblank_lines text) <= MAX_TASKS)%nat /\
     l' = import_lines (nonblank_lines text) []) \/
  (a = Edit LoadSaved /\ Forall (fun t => kept_text (text t)) l' /\
   (List.length l' <= MAX_TASKS)%nat) \/
  (a = Sample /\ todos st = [] /\ l' = sample_tasks).
Proof.
  cbv zeta. unfold after.
  destruct a as [[input | idx | idx | chosen |] | | | b]; cbn [perform run].
  - destruct (addTask_todos toLowerCase setItem_refuses input st)
      as [H | (s & Hv & H)]; [now left|].
    right; left. now exists input, s.
  - right; right; left. exists idx. split; [reflexivity|].
    apply deleteTask_todos.
  - pose proof (toggleTask_todos setItem_refuses idx st) as H.
    destruct (toggle_at idx (todos st)) as [l'|] eqn:E.
    + right; right; right; left. exists idx. now rewrite H.
    + left. now rewrite H.
  - destruct (import_todos setItem_refuses chosen st)
      as [H | (f & text & Hc & _ & Ht & Hl & _ & H)]; [now left|].
    do 4 right. left. now exists chosen, f, text.
  - do 5 right. left. split; [reflexivity|].
    unfold load. run_steps.
    destruct (loadFromLocal_kept st) as (l & s' & E & Hk & _).
    destruct (loadFromLocal_returns st) as (l2 & s2 & E2 & Hl).
    rewrite E in E2. injection E2 as <- <-. rewrite E. run_steps.
    now split.
  - rewrite getTasks_todos.
    destruct (todos st) eqn:E; [|now left].
    do 6 right. repeat split.
  - left. rewrite bind_ret_state, exportTasks_state.
    now destruct (download_fails _).
  - left. rewrite bind_ret_state. apply autosaveChanged_todos.
Qed.

(** X12: after every action the list holds kept texts only: not empty,
    without raw bracket, quote or control character, and without other
    white space than the plain space. *)
Theorem texts_stay_kept (a : action) (st : state) :
  Forall (fun t => kept_text (text t)) (todos st) ->
  Forall (fun t => kept_text (text t))
    (todos (after toLowerCase setItem_refuses download_fails
                  setFlag_refuses a st)).
Proof.
  intros H.
  destruct (after_todos a st)
    as [-> | [(input & s & _ & Hv & ->) | [(idx & _ & ->) |
       [(idx & _ & E) | [(c & f & text & _ & _ & _ & _ & ->) |
       [(_ & Hk & _) | (_ & _ & ->)]]]]]].
  - assumption.
  - apply validateTask_accepts in Hv as (-> & Hne & _).
    apply Forall_app. split; [assumption|].
    constructor; [|constructor]. now apply sanitizeText_kept.
  - now apply splice1_Forall.
  - eapply (toggle_at_Forall kept_text); eassumption.
  - apply import_lines_Forall; [|constructor]. now intros s d Hk _.
  - assumption.
  - eapply Forall_impl; [|apply sample_tasks_kept]. now intros t [Hk _].
Qed.

(** X13: every action but the load keeps the list within the limits of
    [validateTask]: at most 1000 tasks, each of at most 100 characters. *)
Theorem list_stays_bounded (a : action) (st : state) :
  a <> Edit LoadSaved ->
  bounded (todos st) ->
  bounded (todos (after toLowerCase setItem_refuses download_fails
                        setFlag_refuses a st)).
Proof.
  intros Ha [Hn Hl]. unfold bounded.
  destruct (after_todos a st)
    as [-> | [(input & s & _ & Hv & ->) | [(idx & _ & ->) |
       [(idx & _ & E) | [(c & f & text & _ & _ & _ & Hlines & ->) |
       [(Hload & _) | (_ & _ & ->)]]]]]].
  - now split.
  - apply validateTask_accepts in Hv as (_ & _ & Hs & _ & Hc).
    split.
    + rewrite length_app. cbn [List.length]. lia.
    + apply Forall_app. split; [assumption|].
      constructor; [exact Hs | constructor].
  - split.
    + pose proof (splice1_length idx (todos st)). lia.
    + now apply splice1_Forall.
  - split.
    + pose proof (toggle_at_texts _ _ _ E) as Et.
      rewrite <- (length_map text), Et, length_map. assumption.
    + eapply (toggle_at_Forall (fun s => (List.length s <= MAX_LENGTH)%nat));
        eassumption.
  - split.
    + pose proof (import_lines_length (nonblank_lines text) []).
      cbn [List.length] in *. lia.
    + apply import_lines_Forall; [|constructor]. now intros s d _ Hs.
  - contradiction.
  - split; [cbn; unfold MAX_TASKS; lia|].
    eapply Forall_impl; [|apply sample_tasks_kept]. now intros t [_ Hs].
Qed.

End Actions.

Lemma texts_stay_kept_witness :
  Forall (fun t => kept_text (text t))
    (todos (after lower_ascii (fun _ => false) (fun _ => false)
                  (fun _ => false) (Edit (AddTask (js "<b>Walk</b> dog")))
                  (mkState [mkTask (js "Buy milk") true] false false
                           None []))).
Proof.
  apply (texts_stay_kept lower_ascii (fun _ => false) (fun _ => false)
           (fun _ => false)).
  constructor; [|constructor].
  split; [discriminate | split; vm_compute; reflexivity].
Defined.

Lemma list_stays_bounded_witness :
  bounded
    (todos (after lower_ascii (fun _ => false) (fun _ => false)
                  (fun _ => false) Sample
                  (mkState [] false false None []))).
Proof.
  apply (list_stays_bounded lower_ascii (fun _ => false) (fun _ => false)
           (fun _ => false)).
  - discriminate.
  - split; [vm_compute; lia | constructor].
Defined.

(** ** The storage and the flag of unsaved changes *)

Lemma bounded_size (l : list task) :
  bounded l -> length_N (JSON.stringify l) <= SIZE_LIMIT.
Proof. intros [Hn Hl]. now apply stringify_within_limit. Qed.

Section Storage.

Variable toLowerCase : jsstring -> jsstring.
Variable setItem_refuses : jsstring -> bool.
Variable download_fails : jsstring -> bool.
Variable setFlag_refuses : jsstring -> bool.

(** With the toggle on and a storage that accepts it, a list within the
    limits is written. *)
Lemma saveToLocal_on (l : list task) (u : bool) (b : option jsstring)
    (sh : list string) :
  bounded l -> setItem_refuses (JSON.stringify l) = false ->
  saveToLocal setItem_refuses (mkState l u true b sh) =
  Ret true (mkState l false true (Some (JSON.stringify l)) sh).
Proof.
  intros Hb Hr.
  apply (saveToLocal_writes setItem_refuses (mkState l u true b sh));
    [reflexivity | now apply bounded_size | assumption].
Qed.

(** The session after an action when the toggle is off. *)
Lemma after_off (a : action) (st : state) :
  autosaveChecked st = false -> a <> Autosave true ->
  let st' := after toLowerCase setItem_refuses download_fails
                   setFlag_refuses a st in
  storage st' = storage st /\ autosaveChecked st' = false /\
  (a <> Edit LoadSaved -> todos st' <> todos st ->
   unsavedChanges st' = true).
Proof.
  destruct st as [l u c b sh]. cbn [autosaveChecked]. intros -> Ha.
  cbv zeta. unfold after.
  destruct a as [[input | idx | idx | chosen |] | | | k]; cbn [perform run].
  - unfold addTask. run_steps.
    destruct (validateTask _ _ _) as [e | s]; run_steps.
    + cbn. repeat split. congruence.
    + rewrite saveToLocal_off. run_steps. cbn. now repeat split.
  - unfold deleteTask. run_steps. rewrite saveToLocal_off. run_steps.
    cbn. now repeat split.
  - unfold toggleTask. run_steps.
    destruct (toggle_at idx l) as [l'|]; run_steps.
    + rewrite saveToLocal_off. run_steps. cbn. now repeat split.
    + cbn. repeat split. congruence.
  - unfold import, importTasks. run_steps.
    destruct chosen as [f|]; run_steps; [|cbn; repeat split; congruence].
    destruct (ALLOWED_FILE_SIZE <? size f); run_steps;
      [cbn; repeat split; congruence|].
    destruct (negb _ && negb _); run_steps;
      [cbn; repeat split; congruence|].
    destruct (content f) as [text|];
      [|unfold reader_onerror; run_steps; cbn; repeat split; congruence].
    unfold reader_onload. run_steps.
    destruct (MAX_TASKS <? _)%nat; run_steps;
      [cbn; repeat split; congruence|].
    destruct (import_lines _ []) as [|t l']; run_steps;
      [cbn; repeat split; congruence|].
    rewrite saveToLocal_off. run_steps. cbn. now repeat split.
  - unfold load. run_steps.
    destruct (loadFromLocal_kept (mkState l u false b sh))
      as (l' & s' & -> & _ & Hs & Hc & _).
    run_steps. cbn. repeat split; try assumption. congruence.
  - unfold getTasks. run_steps.
    destruct l as [|t l]; run_steps.
    + rewrite saveToLocal_off. run_steps. cbn. now repeat split.
    + cbn. repeat split. congruence.
  - rewrite bind_ret_state, exportTasks_state. cbn [todos].
    destruct (download_fails _); cbn; repeat split; congruence.
  - destruct k; [congruence|].
    rewrite bind_ret_state.
    unfold autosaveChanged, setFlag, set_autosaveChecked. run_steps.
    destruct (setFlag_refuses _); run_steps; cbn; repeat split; congruence.
Qed.

(** X14: while the toggle is off nothing is written: no action but the
    switching on of the toggle changes the blob, and the toggle stays
    off. *)
Theorem toggle_off_never_writes (a : action) (st : state) :
  autosaveChecked st = false -> a <> Autosave true ->
  let st' := after toLowerCase setItem_refuses download_fails
                   setFlag_refuses a st in
  storage st' = storage st /\ autosaveChecked st' = false.
Proof.
  intros Hc Ha. cbv zeta.
  destruct (after_off a st Hc Ha) as (H1 & H2 & _). now split.
Qed.

(** X15: while the toggle is off, an action that changes the list (an
    add, a delete, a toggle, an import, the sample tasks) raises the flag
    of unsaved changes, so that the page asks before it is left. *)
Theorem changes_are_flagged (a : action) (st : state) :
  autosaveChecked st = false ->
  a <> Autosave true -> a <> Edit LoadSaved ->
  let st' := after toLowerCase setItem_refuses download_fails
                   setFlag_refuses a st in
  todos st' <> todos st -> warns_before_unload st' = true.
Proof.
  intros Hc Ha Hl. cbv zeta. intros Hch.
  destruct (after_off a st Hc Ha) as (_ & H2 & H3).
  unfold warns_before_unload. now rewrite H2, (H3 Hl Hch).
Qed.

(** X16: the blob of an export holds one line for each task, its mark
    and its text, a surrogate outside a pair written as U+FFFD; an export
    that succeeds changes neither the list nor the stored blob and lowers
    the flag of unsaved changes; an export that fails changes nothing but
    the message shown. *)
Theorem exportTasks_effect (st : state) :
  (download_fails (export_content (map shipped (todos st))) = false ->
   exportTasks download_fails st =
   Ret (Some (export_content (map shipped (todos st))))
       (mkState (todos st) false (autosaveChecked st) (storage st)
                ("Tasks exported successfully!"%string :: shown st))) /\
  (download_fails (export_content (map shipped (todos st))) = true ->
   exportTasks download_fails st =
   Ret None (reporting "Failed to export tasks." st)).
Proof.
  unfold exportTasks, download. run_steps.
  rewrite toWellFormed_export.
  split; intros ->; run_steps; reflexivity.
Qed.

(** X17: while the toggle is on and the storage accepts what it is given,
    the blob follows the list: when the list is within the limits and the
    blob is its text, the same holds after every action but the load. *)
Theorem storage_follows_list (a : action) (st : state) :
  (forall data, setItem_refuses data = false) ->
  autosaveChecked st = true -> a <> Edit LoadSaved ->
  bounded (todos st) -> synced st ->
  let st' := after toLowerCase setItem_refuses download_fails
                   setFlag_refuses a st in
  synced st'.
Proof.
  intros Hok Hc Ha Hb Hs. destruct st as [l u c b sh].
  cbn [autosaveChecked todos] in *. subst c.
  unfold synced in *. cbn [storage todos] in Hs.
  cbv zeta. unfold after.
  destruct a as [[input | idx | idx | chosen |] | | | k]; cbn [perform run].
  - unfold addTask. run_steps.
    destruct (validateTask _ _ _) as [e | s] eqn:Ev; run_steps;
      [exact Hs|].
    apply validateTask_accepts in Ev as (_ & _ & Hlen & _ & Hcap).
    rewrite saveToLocal_on; [run_steps; reflexivity | | apply Hok].
    destruct Hb as [Hn Hl]. split.
    + rewrite length_app. cbn [List.length]. lia.
    + apply Forall_app. split; [assumption|].
      constructor; [exact Hlen | constructor].
  - unfold deleteTask. run_steps.
    rewrite saveToLocal_on; [run_steps; reflexivity | | apply Hok].
    destruct Hb as [Hn Hl]. split.
    + pose proof (splice1_length idx l). lia.
    + now apply splice1_Forall.
  - unfold toggleTask. run_steps.
    destruct (toggle_at idx l) as [l'|] eqn:E; run_steps; [|exact Hs].
    rewrite saveToLocal_on; [run_steps; reflexivity | | apply Hok].
    destruct Hb as [Hn Hl]. split.
    + pose proof (toggle_at_texts _ _ _ E) as Et.
      rewrite <- (length_map text), Et, length_map. assumption.
    + eapply (toggle_at_Forall (fun s => (List.length s <= MAX_LENGTH)%nat));
        eassumption.
  - unfold import, importTasks. run_steps.
    destruct chosen as [f|]; run_steps; [|exact Hs].
    destruct (ALLOWED_FILE_SIZE <? size f); run_steps; [exact Hs|].
    destruct (negb _ && negb _); run_steps; [exact Hs|].
    destruct (content f) as [text|];
      [|unfold reader_onerror; run_steps; exact Hs].
    unfold reader_onload. run_steps.
    destruct (MAX_TASKS <? _)%nat eqn:El; run_steps; [exact Hs|].
    destruct (import_lines _ []) as [|t l'] eqn:Ei; run_steps; [exact Hs|].
    rewrite saveToLocal_on; [run_steps; reflexivity | | apply Hok].
    rewrite <- Ei. apply Nat.ltb_ge in El. split.
    + pose proof (import_lines_length (nonblank_lines text) []).
      cbn [List.length] in *. lia.
    + apply import_lines_Forall; [|constructor]. now intros s d _ H.
  - congruence.
  - unfold getTasks. run_steps.
    destruct l as [|t l]; run_steps; [|exact Hs].
    rewrite saveToLocal_on; [run_steps; reflexivity | | apply Hok].
    split; [cbn; unfold MAX_TASKS; lia|].
    eapply Forall_impl; [|apply sample_tasks_kept]. now intros t [_ H].
  - rewrite bind_ret_state, exportTasks_state. cbn [todos].
    destruct (download_fails _); exact Hs.
  - rewrite bind_ret_state.
    unfold autosaveChanged, setFlag, set_autosaveChecked. run_steps.
    destruct (setFlag_refuses _); run_steps; [exact Hs|].
    destruct k; run_steps; [|exact Hs].
    rewrite saveToLocal_on; [run_steps; reflexivity | assumption | apply Hok].
Qed.

End Storage.

Lemma toggle_off_never_writes_witness :
  storage (after lower_ascii (fun _ => false) (fun _ => false)
                 (fun _ => false) (Edit (AddTask (js "Walk dog")))
                 (mkState [] false false (Some (js "[]")) [])) =
  Some (js "[]").
Proof.
  exact (proj1 (toggle_off_never_writes lower_ascii (fun _ => false)
                  (fun _ => false) (fun _ => false)
                  (Edit (AddTask (js "Walk dog")))
                  (mkState [] false false (Some (js "[]")) [])
                  eq_refl ltac:(discriminate))).
Defined.

Lemma changes_are_flagged_witness :
  warns_before_unload
    (after lower_ascii (fun _ => false) (fun _ => false) (fun _ => false)
           (Edit (AddTask (js "Walk dog")))
           (mkState [] false false None [])) = true.
Proof.
  apply (changes_are_flagged lower_ascii (fun _ => false) (fun _ => false)
           (fun _ => false) (Edit (AddTask (js "Walk dog")))
           (mkState [] false false None []));
    [reflexivity | discriminate | discriminate | vm_compute; discriminate].
Defined.

Lemma exportTasks_effect_witness :
  exportTasks (fun _ => false)
    (mkState [mkTask (js "Buy milk") true;
              mkTask (js "Walk dog" ++ [55296]) false]
             true false None []) =
  Ret (Some (js "[x] Buy milk" ++ [10] ++ js "[ ] Walk dog" ++ [65533]))
    (mkState [mkTask (js "Buy milk") true;
              mkTask (js "Walk dog" ++ [55296]) false]
             false false None ["Tasks exported successfully!"%string]).
Proof.
  destruct (exportTasks_effect (fun _ => false)
              (mkState [mkTask (js "Buy milk") true;
                        mkTask (js "Walk dog" ++ [55296]) false]
                       true false None []))
    as [H _].
  apply H. reflexivity.
Defined.

Lemma storage_follows_list_witness :
  synced
    (after lower_ascii (fun _ => false) (fun _ => false) (fun _ => false)
           (Edit (AddTask (js "Walk dog")))
           (mkState [mkTask (js "Buy milk") true] false true
                    (Some (JSON.stringify [mkTask (js "Buy milk") true]))
                    [])).
Proof.
  apply (storage_follows_list lower_ascii (fun _ => false) (fun _ => false)
           (fun _ => false) (Edit (AddTask (js "Walk dog")))
           (mkState [mkTask (js "Buy milk") true] false true
                    (Some (JSON.stringify [mkTask (js "Buy milk") true]))
                    [])).
  - reflexivity.
  - reflexivity.
  - discriminate.
  - split; [vm_compute; lia |].
    constructor; [vm_compute; lia | constructor].
  - reflexivity.
Defined.

(** ** The start of the page *)

(** A blob that is the text of a list of stable tasks is loaded as that
    list. *)
Lemma loadFromLocal_stable (l : list task) (st : state) :
  storage st = Some (JSON.stringify l) ->
  (List.length l <= MAX_TASKS)%nat -> Forall stable_task l ->
  loadFromLocal st = Ret l st.
Proof.
  intros Hs Hn Hl.
  rewrite (loadFromLocal_array st (JSON.stringify l) (map task_value l)).
  - now rewrite valid_records_tasks.
  - assumption.
  - unfold JSON.stringify. discriminate.
  - apply parse_stringify.
Qed.

Lemma stable_bounded (l : list task) :
  (List.length l <= MAX_TASKS)%nat -> Forall stable_task l -> bounded l.
Proof.
  intros Hn Hl. split; [assumption|].
  eapply Forall_impl; [|exact Hl]. intros t [_ H]. exact (proj2 H).
Qed.

(** The start of the page on a saved list of stable tasks. *)
Lemma init_restores_aux (l : list task) (checked : bool) :
  (List.length l <= MAX_TASKS)%nat -> Forall stable_task l ->
  init (Some (js "true")) (fresh checked (Some (JSON.stringify l))) =
  Ret tt (mkState l false true (Some (JSON.stringify l)) []) /\
  init None (fresh true (Some (JSON.stringify l))) =
  Ret tt (mkState l false true (Some (JSON.stringify l)) []).
Proof.
  intros Hn Hl. split; unfold init, fresh, set_autosaveChecked; run_steps.
  - change (flag_is_true (Some (js "true"))) with true. run_steps.
    rewrite (loadFromLocal_stable l (mkState _ _ _ _ _))
      by (assumption || reflexivity).
    run_steps.
    rewrite (loadFromLocal_stable l (mkState _ _ _ _ _))
      by (assumption || reflexivity).
    run_steps. reflexivity.
  - change (flag_is_true None) with false. run_steps.
    rewrite (loadFromLocal_stable l (mkState _ _ _ _ _))
      by (assumption || reflexivity).
    run_steps. reflexivity.
Qed.

(** X18: when the flag of the automatic save is stored, or the box is
    presented checked, the start of the page restores a saved list of at
    most 1000 stable tasks, with the box checked and without a message;
    with the flag unset and the box unchecked it loads nothing. *)
Theorem init_restores (l : list task) (checked : bool)
    (flag : option jsstring) :
  (List.length l <= MAX_TASKS)%nat -> Forall stable_task l ->
  (flag_is_true flag = true \/ checked = true ->
   init flag (fresh checked (Some (JSON.stringify l))) =
   Ret tt (mkState l false true (Some (JSON.stringify l)) [])) /\
  (flag_is_true flag = false -> checked = false ->
   init flag (fresh checked (Some (JSON.stringify l))) =
   Ret tt (fresh false (Some (JSON.stringify l)))).
Proof.
  intros Hn Hl. split.
  - intros H. unfold init, fresh, set_autosaveChecked.
    destruct (flag_is_true flag); run_steps.
    + rewrite (loadFromLocal_stable l (mkState _ _ _ _ _))
      by (assumption || reflexivity).
      run_steps.
      rewrite (loadFromLocal_stable l (mkState _ _ _ _ _))
      by (assumption || reflexivity).
      run_steps. reflexivity.
    + destruct H as [H | ->]; [discriminate|]. run_steps.
      rewrite (loadFromLocal_stable l (mkState _ _ _ _ _))
      by (assumption || reflexivity).
      run_steps. reflexivity.
  - intros Hf ->. unfold init, fresh. rewrite Hf. run_steps. reflexivity.
Qed.

(** The start of the page as two loads in a row. *)
Lemma init_unfold (flag : option jsstring) (st : state) :
  init flag st =
  match (if flag_is_true flag
         then load (mkState (todos st) (unsavedChanges st) true
                            (storage st) (shown st))
         else Ret tt st) with
  | Ret _ st0 => (if autosaveChecked st0 then load else ret tt) st0
  | Throw e st0 => Throw e st0
  end.
Proof.
  unfold init, load, bind, read, ret, set_autosaveChecked.
  destruct (flag_is_true flag); reflexivity.
Qed.

Lemma load_frame (st : state) :
  exists st',
    load st = Ret tt st' /\
    storage st' = storage st /\
    unsavedChanges st' = unsavedChanges st /\
    (List.length (todos st') <= MAX_TASKS)%nat /\
    Forall (fun t => kept_text (text t)) (todos st').
Proof.
  destruct (loadFromLocal_kept st) as (l & s' & E & Hk & Hs & Hc & Hu).
  destruct (loadFromLocal_returns st) as (l2 & s2 & E2 & Hl).
  rewrite E in E2. injection E2 as <- <-.
  unfold load. run_steps. rewrite E. run_steps.
  eexists. split; [reflexivity|]. cbn. now repeat split.
Qed.

(** X19: the start of the page never throws and never writes: whatever
    the blob and the flag, it returns, leaves the blob as it is and
    nothing unsaved, and the list it leaves holds at most 1000 tasks of
    kept texts. *)
Theorem init_is_safe (checked : bool) (flag blob : option jsstring) :
  exists st',
    init flag (fresh checked blob) = Ret tt st' /\
    storage st' = blob /\ unsavedChanges st' = false /\
    (List.length (todos st') <= MAX_TASKS)%nat /\
    Forall (fun t => kept_text (text t)) (todos st').
Proof.
  rewrite init_unfold.
  assert (exists st0,
            (if flag_is_true flag
             then load (mkState (todos (fresh checked blob))
                                (unsavedChanges (fresh checked blob)) true
                                (storage (fresh checked blob))
                                (shown (fresh checked blob)))
             else Ret tt (fresh checked blob)) = Ret tt st0 /\
            storage st0 = blob /\ unsavedChanges st0 = false /\
            (List.length (todos st0) <= MAX_TASKS)%nat /\
            Forall (fun t => kept_text (text t)) (todos st0))
    as (st0 & -> & Hs0 & Hu0 & Hn0 & Hk0).
  { destruct (flag_is_true flag).
    - match goal with
      | |- context [load ?s] =>
          destruct (load_frame s) as (st' & E & Hs & Hu & Hn & Hk)
      end.
      exists st'. now repeat split.
    - exists (fresh checked blob). cbn.
      repeat split; [unfold MAX_TASKS; lia | constructor]. }
  destruct (autosaveChecked st0).
  - destruct (load_frame st0) as (st' & E & Hs & Hu & Hn & Hk).
    exists st'. repeat split; congruence || assumption.
  - exists st0. now repeat split.
Qed.

Section Restart.

Variable setItem_refuses : jsstring -> bool.
Variable setFlag_refuses : jsstring -> bool.

(** X20: switching the automatic save on, with a storage that accepts
    what it is given, writes the flag and the list, so that the next
    start of the page restores a list of at most 1000 stable tasks. *)
Theorem autosave_survives_restart (st : state) (checked : bool) :
  (forall data, setItem_refuses data = false) ->
  setFlag_refuses (js "true") = false ->
  (List.length (todos st) <= MAX_TASKS)%nat ->
  Forall stable_task (todos st) ->
  exists st1,
    autosaveChanged setItem_refuses setFlag_refuses true st =
    Ret (Some (js "true")) st1 /\
    todos st1 = todos st /\
    init (Some (js "true")) (fresh checked (storage st1)) =
    Ret tt (mkState (todos st) false true (storage st1) []).
Proof.
  intros Hok Hf Hn Hl. destruct st as [l u c b sh]. cbn [todos] in *.
  unfold autosaveChanged, setFlag, set_autosaveChecked. run_steps.
  rewrite Hf. run_steps.
  rewrite (saveToLocal_on setItem_refuses l u b sh)
    by (apply stable_bounded || apply Hok; assumption).
  run_steps. eexists. split; [reflexivity|]. split; [reflexivity|].
  cbn [storage].
  destruct (init_restores_aux l checked Hn Hl) as [H _]. exact H.
Qed.

End Restart.

Lemma init_restores_witness :
  init (Some (js "true"))
       (fresh false (Some (JSON.stringify [mkTask (js "Buy milk") true]))) =
  Ret tt (mkState [mkTask (js "Buy milk") true] false true
                  (Some (JSON.stringify [mkTask (js "Buy milk") true])) []).
Proof.
  assert ((List.length [mkTask (js "Buy milk") true] <= MAX_TASKS)%nat) as Hn
    by (vm_compute; lia).
  assert (Forall stable_task [mkTask (js "Buy milk") true]) as Hl.
  { constructor; [|constructor].
    split; [vm_compute; reflexivity | vm_compute; lia]. }
  destruct (init_restores [mkTask (js "Buy milk") true] false
              (Some (js "true")) Hn Hl) as [H _].
  apply H. left. reflexivity.
Defined.

Lemma autosave_survives_restart_witness :
  exists st1,
    autosaveChanged (fun _ => false) (fun _ => false) true
      (mkState [mkTask (js "Buy milk") true] true false None []) =
    Ret (Some (js "true")) st1 /\
    todos st1 = [mkTask (js "Buy milk") true] /\
    init (Some (js "true")) (fresh false (storage st1)) =
    Ret tt (mkState [mkTask (js "Buy milk") true] false true
                    (storage st1) []).
Proof.
  apply (autosave_survives_restart (fun _ => false) (fun _ => false)
           (mkState [mkTask (js "Buy milk") true] true false None []) false).
  - reflexivity.
  - reflexivity.
  - vm_compute. lia.
  - constructor; [|constructor].
    split; [vm_compute; reflexivity | vm_compute; lia].
Defined.

(* ================================================================== *)
(** * Further properties: the export and the import *)

Lemma exec_re_newline_none (p : option N) (c : N) (t : jsstring) :
  c <> 10 -> c <> 13 -> exec re_newline p (c :: t) = None.
Proof.
  intros H10 H13. unfold exec, re_newline. cbn [m].
  apply not_eq_sym in H10, H13.
  apply N.eqb_neq in H10, H13. now rewrite H13, H10.
Qed.

Lemma exec_re_newline_lf (p : option N) (t : jsstring) :
  exec re_newline p (10 :: t) = Some 1%nat.
Proof.
  unfold exec, re_newline. cbn [m].
  change (13 =? 10) with false. change (10 =? 10) with true.
  cbv beta iota. cbn [List.length]. f_equal. lia.
Qed.

Lemma split_go_last (x : jsstring) :
  one_line x ->
  forall p cur, split_go re_newline p 0 cur x = [rev cur ++ x].
Proof.
  induction x as [|c x IH]; intros H p cur; cbn [split_go].
  - now rewrite app_nil_r.
  - destruct (H c (or_introl eq_refl)) as [H10 H13].
    rewrite (exec_re_newline_none p c x H10 H13).
    rewrite IH by (intros d Hd; apply H; now right).
    cbn [rev]. now rewrite <- app_assoc.
Qed.

Lemma split_go_line (x s : jsstring) :
  one_line x ->
  forall p cur,
    split_go re_newline p 0 cur (x ++ 10 :: s) =
    (rev cur ++ x) :: split_go re_newline (Some 10) 0 [] s.
Proof.
  induction x as [|c x IH]; intros H p cur; cbn [app split_go].
  - rewrite exec_re_newline_lf. now rewrite app_nil_r.
  - destruct (H c (or_introl eq_refl)) as [H10 H13].
    rewrite (exec_re_newline_none p c _ H10 H13).
    rewrite IH by (intros d Hd; apply H; now right).
    cbn [rev]. now rewrite <- app_assoc.
Qed.

Lemma split_go_join (lines : list jsstring) :
  Forall one_line lines ->
  forall x p cur,
    one_line x ->
    split_go re_newline p 0 cur (join_lines (x :: lines)) =
    (rev cur ++ x) :: lines.
Proof.
  induction 1 as [|y ls Hy Hls IH]; intros x p cur Hx.
  - apply split_go_last. assumption.
  - change (join_lines (x :: y :: ls))
      with (x ++ [10] ++ join_lines (y :: ls)).
    cbn [app]. rewrite (split_go_line x _ Hx).
    now rewrite (IH y (Some 10) [] Hy).
Qed.

(** The lines of a text that was joined are the lines that were joined,
    when none is empty or holds a line terminator. *)
Lemma split_join_lines (lines : list jsstring) :
  lines <> [] ->
  Forall (fun x => x <> [] /\ one_line x) lines ->
  split re_newline (join_lines lines) = lines.
Proof.
  intros Hne H. destruct lines as [|x ls]; [congruence|].
  inversion H as [|? ? [Hx1 Hx2] Hls]; subst.
  assert (Forall one_line ls) as Hl
    by (eapply Forall_impl; [|exact Hls]; now intros a [_ Ha]).
  pose proof (split_go_join ls Hl x None [] Hx2) as E.
  unfold split. destruct (join_lines (x :: ls)) as [|c s] eqn:Ej.
  - destruct x as [|c x]; [congruence|].
    destruct ls; cbn in Ej; discriminate.
  - exact E.
Qed.

Lemma plain_space_one_line (s : jsstring) :
  forallb plain_space_only s = true -> one_line s.
Proof.
  intros H c Hc. rewrite forallb_forall in H. specialize (H c Hc).
  split; intros ->; vm_compute in H; discriminate.
Qed.

Lemma export_line_one_line (t : task) :
  kept_text (text t) -> export_line t <> [] /\ one_line (export_line t).
Proof.
  intros (_ & _ & Hs). rewrite export_line_cons. split; [discriminate|].
  intros c [<- | [<- | [<- | [<- | Hc]]]];
    try (split; discriminate).
  - destruct (done t); split; discriminate.
  - now apply (plain_space_one_line (text t)).
Qed.













Section RoundTrip.

Variable setItem_refuses : jsstring -> bool.


End RoundTrip.


(** X22: an export writes one line for each task, in the order of the
    list: the text of a task the list keeps holds no line terminator, so
    that the lines of the exported text are the marked texts of the
    tasks. *)
Theorem export_one_line_per_task (l : list task) :
  l <> [] -> Forall (fun t => kept_text (text t)) l ->
  split re_newline (export_content l) = map export_line l.
Proof.
  intros Hne H. unfold export_content. apply split_join_lines.
  - destruct l; [congruence | discriminate].
  - apply Forall_forall. intros line Hl.
    apply in_map_iff in Hl as (t & <- & Ht).
    apply export_line_one_line.
    rewrite Forall_forall in H. now apply H.
Qed.

Lemma export_one_line_per_task_witness :
  split re_newline (export_content [mkTask (js "Buy milk") true;
                                    mkTask (js "Walk dog") false]) =
  [js "[x] Buy milk"; js "[ ] Walk dog"].
Proof.
  apply (export_one_line_per_task [mkTask (js "Buy milk") true;
                                   mkTask (js "Walk dog") false]).
  - discriminate.
  - repeat constructor; try discriminate; vm_compute; reflexivity.
Defined.

(* ================================================================== *)
(** * Further properties: a save that fails *)

Section FailedSave.

Variable setItem_refuses : jsstring -> bool.

(** With the toggle on, a list the storage refuses is not written: one
    message is shown and the flag of unsaved changes stays as it is. *)
Lemma saveToLocal_refused (l : list task) (u : bool) (b : option jsstring)
    (sh : list string) :
  setItem_refuses (JSON.stringify l) = true ->
  exists message,
    saveToLocal setItem_refuses (mkState l u true b sh) =
    Ret false (mkState l u true b (message :: sh)).
Proof.
  intros Hr. unfold saveToLocal. run_steps.
  destruct (SIZE_LIMIT <? _); run_steps; [eauto|].
  rewrite Hr. run_steps. eauto.
Qed.

(** X23: unlike [addTask], the delete handler does not take its change
    back when the save fails: with the toggle on and a storage that
    refuses the new list, the task is taken out all the same, the blob
    stays as it was, one message is shown, the changes are unsaved, and
    the page does not ask before it is left. *)
Theorem deleteTask_save_fails (idx : nat) (st : state) :
  let st' := state_of (deleteTask setItem_refuses idx st) in
  autosaveChecked st = true ->
  setItem_refuses (JSON.stringify (splice1 idx (todos st))) = true ->
  todos st' = splice1 idx (todos st) /\
  storage st' = storage st /\
  unsavedChanges st' = true /\
  warns_before_unload st' = false /\
  exists message, shown st' = message :: shown st.
Proof.
  cbv zeta. destruct st as [l u c b sh]. cbn [autosaveChecked todos].
  intros -> Hr. unfold deleteTask. run_steps.
  destruct (saveToLocal_refused (splice1 idx l) true b sh Hr) as [msg ->].
  run_steps. cbn [state_of]. repeat split. now exists msg.
Qed.

End FailedSave.

Lemma deleteTask_save_fails_witness :
  todos (state_of (deleteTask (fun _ => true) 0
           (mkState [mkTask (js "Buy milk") true; mkTask (js "Walk dog") false]
                    false true (Some (js "[]")) []))) =
  [mkTask (js "Walk dog") false].
Proof.
  destruct (deleteTask_save_fails (fun _ => true) 0
              (mkState [mkTask (js "Buy milk") true;
                        mkTask (js "Walk dog") false]
                       false true (Some (js "[]")) [])
              eq_refl eq_refl) as [H _].
  exact H.
Defined.
